(** * The polling subscriber of [pubsub/subscription]

    A shallow embedding of [Subscription] (lib/pubsub/subscription.js): the
    acknowledgment bookkeeping ([inProgressAckIds]), the pause flag
    ([refreshPausedStatus_]), the poll loop ([startPulling_], [pull]) and the
    listener hooks ([listenForEvents_]).

    The JavaScript is callback based.  Every method is embedded as a
    computation in a small monad [M] that threads the fields of the
    subscription object, records the calls made to the outside (HTTP
    requests, [emit], [setTimeout], consumer callbacks) in the order in which
    they are made, and may throw.  The anonymous callbacks of the source are
    defunctionalised: a constructor per closure, carrying its captured
    variables.  A [World] holds the object together with the requests and
    timers that are still outstanding; the transport and the consumer are the
    environment, which picks the next [Input].

    What lies outside the source is kept at its interface:
    - [this.request] sends a request and returns; its callback runs later,
      once, with whatever the transport answers;
    - the consumer's callbacks and listeners are recorded as effects and
      return normally; what the consumer's code does to the subscription
      (ack, skip, removing a listener, ...) enters as later inputs;
    - of Node's [EventEmitter] the listener registry is modelled, with the
      ['newListener'] and ['removeListener'] events it emits, and [emit]:
      an ['error'] event that finds no ['error'] listener is thrown. *)

From stdpp Require Import gmap strings list fin_maps.
From Stdlib Require Import ZArith Lia Ascii.

Local Open Scope Z_scope.

(** ** Values *)

(** A JavaScript number, that is an IEEE 754 double: an integer, a
    fraction [m / 2^k] with [m] odd, an infinity or NaN.  Only the doubles
    among these are numbers of the source.  The zero with a sign bit is not
    told apart from zero: it compares as zero and a request body writes
    both as [0]. *)
Inductive JsNumber :=
  | Num (z : Z)
  | Frac (m : Z) (k : positive)
  | Infinity
  | NegInfinity
  | NaN.

(** [a >= b] for an integer [a]. *)
Definition js_ge (a : Z) (b : JsNumber) : bool :=
  match b with
  | Num z => z <=? a
  | Frac m k => m <=? a * 2 ^ Z.pos k
  | Infinity => false
  | NegInfinity => true
  | NaN => false
  end.

(** [a < b] for an integer [a]. *)
Definition js_lt (a : Z) (b : JsNumber) : bool :=
  match b with
  | Num z => a <? z
  | Frac m k => a * 2 ^ Z.pos k <? m
  | Infinity => true
  | NegInfinity => false
  | NaN => false
  end.

(** [x < Infinity] *)
Definition lt_Infinity (x : JsNumber) : bool :=
  match x with
  | Num _ | Frac _ _ | NegInfinity => true
  | Infinity | NaN => false
  end.

(** [v / 2^k], in lowest terms. *)
Fixpoint reduce (v : Z) (k : nat) : JsNumber :=
  match k with
  | O => Num v
  | S k' => if Z.even v then reduce (v / 2) k' else Frac v (Pos.of_succ_nat k')
  end.

(** [v * 2^e] *)
Definition dyadic (v e : Z) : JsNumber :=
  if 0 <=? e then Num (v * 2 ^ e) else reduce v (Z.to_nat (- e)).

(** The double nearest to [m * 2^e], ties going to the even significand:
    53 bits are kept, no bit below [2^-1074], and what reaches [2^1024]
    is an infinity. *)
Definition round64 (m e : Z) : JsNumber :=
  let a := Z.abs m in
  let sh := Z.max (Z.log2 a - 52) (-1074 - e) in
  let q :=
    if sh <=? 0 then a
    else
      let q := Z.shiftr a sh in
      let r := a - Z.shiftl q sh in
      let half := 2 ^ (sh - 1) in
      if (half <? r) || ((half =? r) && Z.odd q) then q + 1 else q in
  let e' := if sh <=? 0 then e else e + sh in
  if (0 <=? e') && (2 ^ 1024 <=? q * 2 ^ e')
  then (if m <? 0 then NegInfinity else Infinity)
  else dyadic (Z.sgn m * q) e'.

(** [x - c] for an integer [c]: [x] itself when [c] is zero, and else the
    exact difference, rounded once. *)
Definition js_minus (x : JsNumber) (c : Z) : JsNumber :=
  if c =? 0 then x
  else
    match x with
    | Num n => round64 (n - c) 0
    | Frac m k => round64 (m - c * 2 ^ Z.pos k) (- Z.pos k)
    | Infinity => Infinity
    | NegInfinity => NegInfinity
    | NaN => NaN
    end.

Definition Error := string.

(** A received message as the pull API returns it. *)
Record InnerMessage := {
  messageId : option string;
  raw_data : option string;
  raw_attributes : option (list (string * string))
}.

Record ReceivedMessage := {
  raw_ackId : string;
  message : option InnerMessage
}.

Record ApiResponse := {
  receivedMessages : option (list ReceivedMessage)
}.

(** The payload after [new Buffer(d, 'base64').toString('utf-8')] and the
    attempted [JSON.parse]: kept symbolic, as a function of the base64 text. *)
Inductive MessageData :=
  | decoded (base64 : string).

(** A message as [formatMessage_] builds it.  The [ack] and [skip] methods
    that [decorateMessage_] attaches are closures over [ackId]; they are the
    inputs [Ack (OneId ackId)] and [Skip ackId] below. *)
Record Message := {
  ackId : string;
  id : option string;
  data : option MessageData;
  attributes : option (list (string * string))
}.

(** What [arrify] is applied to in [ack]. *)
Inductive AckIdsArg :=
  | OneId (ackId : string)
  | IdArray (ackIds : list string)
  | NoIds.

Definition arrify_ackIds (a : AckIdsArg) : list string :=
  match a with
  | OneId x => [x]
  | IdArray l => l
  | NoIds => []
  end.

Definition arrify {A} (o : option (list A)) : list A := default [] o.

(** [maxResults] is [None] when it is not a number. *)
Record PullOptions := {
  returnImmediately : bool;
  maxResults : option JsNumber
}.

(** ** Callbacks, requests and effects *)

(** The callbacks handed to [pull]. *)
Inductive PullCallback :=
  | startPulling_callback
  | consumerPull (k : nat).

(** A consumer supplied [function(err, apiResponse)], or [util.noop]. *)
Inductive Callback :=
  | noop
  | consumer (k : nat).

(** The callbacks handed to [ack]: a plain one, or the closure
    [function(err) { callback(err, messages, response); }] of [pull]. *)
Inductive AckCallback :=
  | plain (c : Callback)
  | autoAck_callback (callback : PullCallback) (messages : list Message)
      (response : ApiResponse).

Inductive Request :=
  | ReqAcknowledge (ackIds : list string)
  | ReqPull (returnImmediately : bool) (maxMessages : JsNumber)
  | ReqModifyAckDeadline (ackIds : list string) (ackDeadlineSeconds : Z)
  | ReqDelete.

(** The [function(err, resp)] passed to [this.request] by each method. *)
Inductive Handler :=
  | ack_done (ackIds : list string) (callback : AckCallback)
  | pull_done (callback : PullCallback)
  | setAckDeadline_done (callback : Callback)
  | delete_done (callback : Callback).

Inductive Emitted :=
  | message_event (m : Message) (apiResponse : ApiResponse)
  | error_event (err : Error) (apiResponse : ApiResponse).

Inductive Effect :=
  | Requested (r : Request) (h : Handler)
  | Emit (e : Emitted)
  | SetTimeout (delay : Z)
  | Called (k : nat) (err : option Error) (messages : option (list Message))
      (apiResponse : ApiResponse)
  | Uncaught (e : Error).

(** ** The subscription object *)

(** The fields set by the constructor, and the part of the inherited
    [EventEmitter] the subscription depends on: whether the two handlers
    installed by [listenForEvents_] are still registered, and the event name
    of every listener the consumer has registered.  [inProgressAckIds] is a
    JavaScript object used as a set: its own keys, mapped to [true]. *)
Record Subscription := {
  autoAck : bool;
  closed : bool;
  interval : Z;
  inProgressAckIds : gmap string bool;
  maxInProgress : JsNumber;
  messageListeners : Z;
  paused : bool;
  hooks : bool;
  listeners : list string
}.

Definition set_closed (b : bool) (s : Subscription) : Subscription :=
  {| autoAck := autoAck s; closed := b; interval := interval s;
     inProgressAckIds := inProgressAckIds s; maxInProgress := maxInProgress s;
     messageListeners := messageListeners s; paused := paused s;
     hooks := hooks s; listeners := listeners s |}.

Definition set_paused (b : bool) (s : Subscription) : Subscription :=
  {| autoAck := autoAck s; closed := closed s; interval := interval s;
     inProgressAckIds := inProgressAckIds s; maxInProgress := maxInProgress s;
     messageListeners := messageListeners s; paused := b;
     hooks := hooks s; listeners := listeners s |}.

Definition set_inProgressAckIds (m : gmap string bool) (s : Subscription)
  : Subscription :=
  {| autoAck := autoAck s; closed := closed s; interval := interval s;
     inProgressAckIds := m; maxInProgress := maxInProgress s;
     messageListeners := messageListeners s; paused := paused s;
     hooks := hooks s; listeners := listeners s |}.

Definition set_messageListeners (n : Z) (s : Subscription) : Subscription :=
  {| autoAck := autoAck s; closed := closed s; interval := interval s;
     inProgressAckIds := inProgressAckIds s; maxInProgress := maxInProgress s;
     messageListeners := n; paused := paused s;
     hooks := hooks s; listeners := listeners s |}.

Definition set_hooks (b : bool) (s : Subscription) : Subscription :=
  {| autoAck := autoAck s; closed := closed s; interval := interval s;
     inProgressAckIds := inProgressAckIds s; maxInProgress := maxInProgress s;
     messageListeners := messageListeners s; paused := paused s;
     hooks := b; listeners := listeners s |}.

Definition set_listeners (l : list string) (s : Subscription) : Subscription :=
  {| autoAck := autoAck s; closed := closed s; interval := interval s;
     inProgressAckIds := inProgressAckIds s; maxInProgress := maxInProgress s;
     messageListeners := messageListeners s; paused := paused s;
     hooks := hooks s; listeners := l |}.

(** [Object.keys(this.inProgressAckIds).length] *)
Definition inProgress (s : Subscription) : Z :=
  Z.of_nat (size (inProgressAckIds s)).

(** ** The monad *)

Inductive Outcome (A : Type) :=
  | Return (a : A)
  | Throw (e : Error).
Arguments Return {A} a.
Arguments Throw {A} e.

Definition M (A : Type) : Type :=
  Subscription → Outcome A * Subscription * list Effect.

Definition ret {A} (a : A) : M A := λ s, (Return a, s, []).

Definition bind {A B} (m : M A) (k : A → M B) : M B := λ s,
  match m s with
  | (Return a, s1, e1) =>
      match k a s1 with
      | (o, s2, e2) => (o, s2, e1 ++ e2)
      end
  | (Throw e, s1, e1) => (Throw e, s1, e1)
  end.

Definition get : M Subscription := λ s, (Return s, s, []).
Definition modify (f : Subscription → Subscription) : M unit :=
  λ s, (Return tt, f s, []).
Definition tell (e : Effect) : M unit := λ s, (Return tt, s, [e]).
Definition throw {A} (e : Error) : M A := λ s, (Throw e, s, []).

Declare Scope js_scope.
Delimit Scope js_scope with js.
Notation "x <- m ;; k" := (bind m (λ x, k))
  (at level 100, m at next level, right associativity) : js_scope.
Notation "m ;; k" := (bind m (λ _, k))
  (at level 100, right associativity) : js_scope.
Local Open Scope js_scope.

(** [l.forEach(f)] *)
Fixpoint forEach {A} (f : A → M unit) (l : list A) : M unit :=
  match l with
  | [] => ret tt
  | x :: l' => f x ;; forEach f l'
  end.

(** [l.map(f)] for an effectful [f] *)
Fixpoint mapM {A B} (f : A → M B) (l : list A) : M (list B) :=
  match l with
  | [] => ret []
  | x :: l' => y <- f x ;; ys <- mapM f l' ;; ret (y :: ys)
  end.

Definition request (r : Request) (h : Handler) : M unit := tell (Requested r h).

(** [this.emit(...)]: the listeners of the event are called; for an
    ['error'] event with no ['error'] listener registered the emitter
    throws instead, the error itself when it is an [Error], as those of
    the transport are. *)
Definition emit (e : Emitted) : M unit :=
  match e with
  | message_event _ _ => tell (Emit e)
  | error_event err _ =>
      s <- get ;;
      if bool_decide ("error" ∈ listeners s) then tell (Emit e) else throw err
  end.

(** [setTimeout(self.startPulling_.bind(self), delay)] *)
Definition setTimeout (delay : Z) : M unit := tell (SetTimeout delay).

(** ** The methods of [Subscription] *)

(** The constructor, for the options it reads ([is.boolean], [is.number]
    failing is [None]). *)
Record Options := {
  opt_autoAck : option bool;
  opt_interval : option Z;
  opt_maxInProgress : option JsNumber
}.

(** [listenForEvents_] registers the two handlers [on_newListener] and
    [on_removeListener] defined below. *)
Definition listenForEvents_ (s : Subscription) : Subscription :=
  set_hooks true s.

Definition new_Subscription (options : Options) : Subscription :=
  listenForEvents_
    {| autoAck := default false (opt_autoAck options);
       closed := true;
       interval := default 10 (opt_interval options);
       inProgressAckIds := ∅;
       maxInProgress := default Infinity (opt_maxInProgress options);
       messageListeners := 0;
       paused := false;
       hooks := false;
       listeners := [] |}.

Definition formatMessage_ (msg : ReceivedMessage) : Message :=
  match message msg with
  | Some innerMessage =>
      {| ackId := raw_ackId msg;
         id := messageId innerMessage;
         data := match raw_data innerMessage with
                 | Some d => if bool_decide (d = "") then None
                             else Some (decoded d)
                 | None => None
                 end;
         attributes := raw_attributes innerMessage |}
  | None =>
      {| ackId := raw_ackId msg; id := None; data := None;
         attributes := None |}
  end.

Definition MAX_EVENTS_LIMIT : JsNumber := Num 1000.

Definition pull (options : option PullOptions) (callback : PullCallback)
  : M unit :=
  let options :=
    default {| returnImmediately := false; maxResults := None |} options in
  let maxResults := default MAX_EVENTS_LIMIT (maxResults options) in
  request (ReqPull (returnImmediately options) maxResults) (pull_done callback).

(** [maxResults] stays [undefined] unless [this.maxInProgress < Infinity]. *)
Definition startPulling_ : M unit :=
  s <- get ;;
  if closed s || paused s then ret tt
  else
    let maxResults :=
      if lt_Infinity (maxInProgress s)
      then Some (js_minus (maxInProgress s) (inProgress s))
      else None in
    pull (Some {| returnImmediately := false; maxResults := maxResults |})
         startPulling_callback.

Definition refreshPausedStatus_ : M unit :=
  s <- get ;;
  let isCurrentlyPaused := paused s in
  let inProgress := inProgress s in
  modify (set_paused (js_ge inProgress (maxInProgress s))) ;;
  s <- get ;;
  if isCurrentlyPaused && negb (paused s) && (0 <? messageListeners s)
  then startPulling_
  else ret tt.

Definition ack (ackIds : AckIdsArg) (callback : option AckCallback) : M unit :=
  let ackIds := arrify_ackIds ackIds in
  if bool_decide (length ackIds = 0%nat)
  then throw "At least one ID must be specified before it can be acknowledged."
  else
    let callback := default (plain noop) callback in
    request (ReqAcknowledge ackIds) (ack_done ackIds callback).

Definition delete_ackId (a : string) : M unit :=
  modify (λ s, set_inProgressAckIds (delete a (inProgressAckIds s)) s).

(** [obj[key] = true] on an object created by [{}]: an own property is
    set, except for the key ['__proto__'], which names the accessor
    inherited from [Object.prototype]; its setter ignores a value that is
    not an object, and the object is left as it was. *)
Definition set_property (key : string) (obj : gmap string bool)
  : gmap string bool :=
  if bool_decide (key = "__proto__") then obj else <[key := true]> obj.

Definition decorateMessage_ (message : Message) : M Message :=
  modify (λ s, set_inProgressAckIds
                 (set_property (ackId message) (inProgressAckIds s)) s) ;;
  ret message.

(** [message.skip] of a message decorated with this [ackId] *)
Definition skip (ackId : string) : M unit :=
  delete_ackId ackId ;;
  refreshPausedStatus_.

Definition delete_ (callback : option Callback) : M unit :=
  request ReqDelete (delete_done (default noop callback)).

Definition setAckDeadline (ackIds : AckIdsArg) (seconds : Z)
    (callback : option Callback) : M unit :=
  request (ReqModifyAckDeadline (arrify_ackIds ackIds) seconds)
          (setAckDeadline_done (default noop callback)).

(** *** The callbacks *)

Definition call (c : Callback) (err : option Error) (resp : ApiResponse)
  : M unit :=
  match c with
  | noop => ret tt
  | consumer k => tell (Called k err None resp)
  end.

(** The body of the callback [startPulling_] passes to [pull]. *)
Definition startPulling_callback_body (err : option Error)
    (messages : option (list Message)) (apiResponse : ApiResponse) : M unit :=
  match err with
  | Some e => emit (error_event e apiResponse)
  | None => ret tt
  end ;;
  match messages with
  | Some ms => forEach (λ m, emit (message_event m apiResponse)) ms
  | None => ret tt
  end ;;
  s <- get ;;
  setTimeout (interval s).

Definition call_pull (c : PullCallback) (err : option Error)
    (messages : option (list Message)) (response : ApiResponse) : M unit :=
  match c with
  | startPulling_callback => startPulling_callback_body err messages response
  | consumerPull k => tell (Called k err messages response)
  end.

Definition call_ack (c : AckCallback) (err : option Error)
    (resp : ApiResponse) : M unit :=
  match c with
  | plain c => call c err resp
  | autoAck_callback callback messages response =>
      call_pull callback err (Some messages) response
  end.

(** *** The response handlers *)

Definition on_ack_done (ackIds : list string) (callback : AckCallback)
    (err : option Error) (resp : ApiResponse) : M unit :=
  match err with
  | None => forEach delete_ackId ackIds ;; refreshPausedStatus_
  | Some _ => ret tt
  end ;;
  call_ack callback err resp.

Definition on_pull_done (callback : PullCallback) (err : option Error)
    (response : ApiResponse) : M unit :=
  match err with
  | Some e => call_pull callback (Some e) None response
  | None =>
      messages <- mapM decorateMessage_
                    (map formatMessage_ (arrify (receivedMessages response))) ;;
      refreshPausedStatus_ ;;
      s <- get ;;
      if autoAck s && negb (bool_decide (length messages = 0%nat))
      then
        let ackIds := map ackId messages in
        ack (IdArray ackIds) (Some (autoAck_callback callback messages response))
      else call_pull callback None (Some messages) response
  end.

(** *** The listener hooks of [listenForEvents_] *)

Definition on_newListener (event : string) : M unit :=
  if bool_decide (event = "message") then
    modify (λ s, set_messageListeners (messageListeners s + 1) s) ;;
    s <- get ;;
    if closed s then modify (set_closed false) ;; startPulling_
    else ret tt
  else ret tt.

Definition on_removeListener (event : string) : M unit :=
  if bool_decide (event = "message") then
    modify (λ s, set_messageListeners (messageListeners s - 1) s) ;;
    s <- get ;;
    if messageListeners s =? 0 then modify (set_closed true) else ret tt
  else ret tt.

(** *** The inherited [EventEmitter] methods

    As Node documents them: ['newListener'] is emitted before a listener is
    added, ['removeListener'] after one was removed, and
    [removeAllListeners()] removes the consumer's listeners one by one, then
    the two hooks. *)

Fixpoint remove_one (event : string) (l : list string) : list string :=
  match l with
  | [] => []
  | x :: l' => if bool_decide (x = event) then l' else x :: remove_one event l'
  end.

Definition on (event : string) : M unit :=
  s <- get ;;
  (if hooks s then on_newListener event else ret tt) ;;
  modify (λ s, set_listeners (listeners s ++ [event]) s).

Definition removeListener (event : string) : M unit :=
  s <- get ;;
  if bool_decide (event ∈ listeners s) then
    modify (λ s, set_listeners (remove_one event (listeners s)) s) ;;
    if hooks s then on_removeListener event else ret tt
  else ret tt.

Definition removeAllListeners : M unit :=
  s <- get ;;
  forEach removeListener (listeners s) ;;
  modify (set_hooks false).

Definition on_delete_done (callback : Callback) (err : option Error)
    (resp : ApiResponse) : M unit :=
  match err with
  | Some e => call callback (Some e) resp
  | None =>
      modify (set_closed true) ;;
      removeAllListeners ;;
      call callback None resp
  end.

Definition handle (h : Handler) (err : option Error) (resp : ApiResponse)
  : M unit :=
  match h with
  | ack_done ackIds callback => on_ack_done ackIds callback err resp
  | pull_done callback => on_pull_done callback err resp
  | setAckDeadline_done callback => call callback err resp
  | delete_done callback => on_delete_done callback err resp
  end.

(** ** The world around the object *)

Record World := {
  sub : Subscription;
  pending : list (Request * Handler);
  timers : list Z;
  trace : list Effect
}.

Definition requests_of (effs : list Effect) : list (Request * Handler) :=
  omap (λ e, match e with Requested r h => Some (r, h) | _ => None end) effs.

Definition timeouts_of (effs : list Effect) : list Z :=
  omap (λ e, match e with SetTimeout d => Some d | _ => None end) effs.

(** Run one synchronous piece of code to completion: the requests and
    timers it started join the outstanding ones.  An exception that reaches
    the top is recorded; what was done before it stays done. *)
Definition exec_on (w : World) (pending' : list (Request * Handler))
    (timers' : list Z) (m : M unit) : World :=
  match m (sub w) with
  | (o, s', effs) =>
      {| sub := s';
         pending := pending' ++ requests_of effs;
         timers := timers' ++ timeouts_of effs;
         trace := trace w ++ effs ++
                  match o with Return _ => [] | Throw e => [Uncaught e] end |}
  end.

Inductive Input :=
  | On (event : string)
  | RemoveListener (event : string)
  | Ack (ackIds : AckIdsArg) (callback : option nat)
  | Skip (ackId : string)
  | Pull (options : option PullOptions) (callback : nat)
  | SetAckDeadline (ackIds : AckIdsArg) (seconds : Z) (callback : option nat)
  | Delete (callback : option nat)
  | Respond (i : nat) (err : option Error) (resp : ApiResponse)
  | Tick (i : nat).

(** The synchronous code an input runs, with the requests and timers that
    stay outstanding; [None] when the input names a request or timer that is
    not outstanding. *)
Definition dispatch (i : Input) (w : World)
  : option (list (Request * Handler) * list Z * M unit) :=
  match i with
  | On event => Some (pending w, timers w, on event)
  | RemoveListener event => Some (pending w, timers w, removeListener event)
  | Ack ackIds callback =>
      Some (pending w, timers w,
            ack ackIds ((λ k, plain (consumer k)) <$> callback))
  | Skip ackId => Some (pending w, timers w, skip ackId)
  | Pull options callback =>
      Some (pending w, timers w, pull options (consumerPull callback))
  | SetAckDeadline ackIds seconds callback =>
      Some (pending w, timers w,
            setAckDeadline ackIds seconds (consumer <$> callback))
  | Delete callback =>
      Some (pending w, timers w, delete_ (consumer <$> callback))
  | Respond i err resp =>
      match pending w !! i with
      | Some (_, h) => Some (delete i (pending w), timers w, handle h err resp)
      | None => None
      end
  | Tick i =>
      match timers w !! i with
      | Some _ => Some (pending w, delete i (timers w), startPulling_)
      | None => None
      end
  end.

Definition step (i : Input) (w : World) : option World :=
  match dispatch i w with
  | Some (pending', timers', m) => Some (exec_on w pending' timers' m)
  | None => None
  end.

Fixpoint run (inputs : list Input) (w : World) : option World :=
  match inputs with
  | [] => Some w
  | i :: inputs' =>
      match step i w with
      | Some w' => run inputs' w'
      | None => None
      end
  end.

Definition boot (options : Options) : World :=
  {| sub := new_Subscription options; pending := []; timers := [];
     trace := [] |}.

Inductive reachable (options : Options) : World → Prop :=
  | reachable_boot : reachable options (boot options)
  | reachable_step i w w' :
      reachable options w → step i w = Some w' → reachable options w'.

(** * Derived notions

    What the statements below are phrased with: the request a poll cycle
    sends, the object after each method, the effects each method leaves. *)

(** The request one poll cycle sends from the object [s]. *)
Definition poll_maxMessages (s : Subscription) : JsNumber :=
  if lt_Infinity (maxInProgress s)
  then js_minus (maxInProgress s) (inProgress s)
  else MAX_EVENTS_LIMIT.

Definition poll_request (s : Subscription) : Effect :=
  Requested (ReqPull false (poll_maxMessages s)) (pull_done startPulling_callback).

Definition untrack (ackIds : list string) (m : gmap string bool)
  : gmap string bool :=
  foldl (λ m a, delete a m) m ackIds.

Definition track (ms : list Message) (m : gmap string bool)
  : gmap string bool :=
  foldl (λ m x, set_property (ackId x) m) m ms.

(** The object after [refreshPausedStatus_], and whether that call goes on
    to [startPulling_]. *)
Definition refreshed (s : Subscription) : Subscription :=
  set_paused (js_ge (inProgress s) (maxInProgress s)) s.

Definition resumes (s : Subscription) : bool :=
  paused s && negb (js_ge (inProgress s) (maxInProgress s))
  && (0 <? messageListeners s).

Definition error_emitted (err : option Error) (resp : ApiResponse)
  : list Effect :=
  match err with
  | Some e => [Emit (error_event e resp)]
  | None => []
  end.

Definition messages_emitted (messages : option (list Message))
    (resp : ApiResponse) : list Effect :=
  match messages with
  | Some ms => map (λ m, Emit (message_event m resp)) ms
  | None => []
  end.

(** The error that [emit('error', err)] throws on [s]: there is one when
    no ['error'] listener is registered. *)
Definition unheard (err : option Error) (s : Subscription) : option Error :=
  match err with
  | Some e => if bool_decide ("error" ∈ listeners s) then None else Some e
  | None => None
  end.

(** What a callback does when invoked: it leaves the object alone.  The
    callback of the poll loop stops at an error it cannot emit. *)
Definition pull_callback_outcome (c : PullCallback) (err : option Error)
    (s : Subscription) : Outcome unit :=
  match c with
  | startPulling_callback =>
      match unheard err s with
      | Some e => Throw e
      | None => Return tt
      end
  | consumerPull _ => Return tt
  end.

Definition pull_callback_effects (c : PullCallback) (err : option Error)
    (messages : option (list Message)) (resp : ApiResponse) (s : Subscription)
  : list Effect :=
  match c with
  | startPulling_callback =>
      match unheard err s with
      | Some _ => []
      | None =>
          error_emitted err resp ++ messages_emitted messages resp
            ++ [SetTimeout (interval s)]
      end
  | consumerPull k => [Called k err messages resp]
  end.

Definition ack_callback_outcome (c : AckCallback) (err : option Error)
    (s : Subscription) : Outcome unit :=
  match c with
  | plain _ => Return tt
  | autoAck_callback callback _ _ => pull_callback_outcome callback err s
  end.

Definition ack_callback_effects (c : AckCallback) (err : option Error)
    (resp : ApiResponse) (s : Subscription) : list Effect :=
  match c with
  | plain noop => []
  | plain (consumer k) => [Called k err None resp]
  | autoAck_callback callback messages response =>
      pull_callback_effects callback err (Some messages) response s
  end.

Definition resume_effects (s : Subscription) : list Effect :=
  if resumes s && negb (closed s) then [poll_request (refreshed s)] else [].

Definition untracked (ackIds : list string) (s : Subscription) : Subscription :=
  set_inProgressAckIds (untrack ackIds (inProgressAckIds s)) s.

Definition tracked (ms : list Message) (s : Subscription) : Subscription :=
  set_inProgressAckIds (track ms (inProgressAckIds s)) s.

(** The messages of a pull response, formatted. *)
Definition received (response : ApiResponse) : list Message :=
  map formatMessage_ (arrify (receivedMessages response)).

Definition newListener_state (event : string) (s : Subscription)
  : Subscription :=
  if bool_decide (event = "message") then
    let s1 := set_messageListeners (messageListeners s + 1) s in
    if closed s then set_closed false s1 else s1
  else s.

Definition newListener_effects (event : string) (s : Subscription)
  : list Effect :=
  if bool_decide (event = "message") && closed s && negb (paused s)
  then [poll_request s] else [].

Definition removeListener_hook_state (event : string) (s : Subscription)
  : Subscription :=
  if bool_decide (event = "message") then
    let s1 := set_messageListeners (messageListeners s - 1) s in
    if messageListeners s1 =? 0 then set_closed true s1 else s1
  else s.

Definition on_state (event : string) (s : Subscription) : Subscription :=
  let s1 := if hooks s then newListener_state event s else s in
  set_listeners (listeners s1 ++ [event]) s1.

Definition on_effects (event : string) (s : Subscription) : list Effect :=
  if hooks s then newListener_effects event s else [].

Definition removeListener_state (event : string) (s : Subscription)
  : Subscription :=
  if bool_decide (event ∈ listeners s) then
    let s1 := set_listeners (remove_one event (listeners s)) s in
    if hooks s then removeListener_hook_state event s1 else s1
  else s.

Definition removeAllListeners_state (s : Subscription) : Subscription :=
  set_hooks false
    (foldl (λ s event, removeListener_state event s) s (listeners s)).

Definition callback_effects (c : Callback) (err : option Error)
    (resp : ApiResponse) : list Effect :=
  match c with
  | noop => []
  | consumer k => [Called k err None resp]
  end.

Definition message_count (l : list string) : nat :=
  length (filter (λ x, x = "message") l).

(** What the listener hooks keep true while they are installed, and what
    is left once [removeAllListeners] took them away. *)
Definition counted (s : Subscription) : Prop :=
  if hooks s then messageListeners s = Z.of_nat (message_count (listeners s))
  else messageListeners s = 0.

Record Inv (s : Subscription) : Prop := {
  inv_closed : closed s = negb (0 <? messageListeners s);
  inv_counted : counted s;
  inv_paused : paused s = true → maxInProgress s ≠ Infinity
}.

(** The pull requests of the poll loop: those [startPulling_] sent. *)
Definition is_poll_request (e : Effect) : bool :=
  match e with
  | Requested (ReqPull _ _) (pull_done startPulling_callback) => true
  | _ => false
  end.

Definition poll_requests (effs : list Effect) : list Effect :=
  List.filter is_poll_request effs.

Definition quiet (effs : list Effect) : Prop :=
  Forall (λ e, is_poll_request e = false) effs.

(** What holds of the object [s'] and the effects [effs] a piece of code
    leaves when started on [s]; [reopening] is set for the one input that
    may clear [closed]. *)
Record step_ok (reopening : Prop) (s s' : Subscription) (effs : list Effect)
  : Prop := {
  ok_autoAck : autoAck s' = autoAck s;
  ok_interval : interval s' = interval s;
  ok_maxInProgress : maxInProgress s' = maxInProgress s;
  ok_inv : Inv s → Inv s';
  ok_polls : Forall (λ e, is_poll_request e = true → e = poll_request s') effs;
  ok_closed : closed s = true → ¬ reopening → closed s' = true ∧ quiet effs
}.

Definition uncaught {A} (o : Outcome A) : list Effect :=
  match o with
  | Return _ => []
  | Throw e => [Uncaught e]
  end.

Definition acknowledge_requests (effs : list Effect) : list (list string) :=
  omap (λ rh, match fst rh with ReqAcknowledge l => Some l | _ => None end)
       (requests_of effs).

(** ** What is emitted *)

Definition emitted_messages (effs : list Effect) : list Message :=
  omap (λ e, match e with Emit (message_event m _) => Some m | _ => None end)
       effs.

(** ** The in-progress set as a tracker *)

(** The operations on [inProgressAckIds]: [decorateMessage_] tracks, a
    [skip] and the success of an acknowledge request resolve. *)
Inductive TrackerOp :=
  | track_op (m : Message)
  | skip_op (ackId : string)
  | ack_op (ackIds : list string) (callback : AckCallback) (resp : ApiResponse).

Definition run_op (op : TrackerOp) : M unit :=
  match op with
  | track_op m => _ <- decorateMessage_ m ;; ret tt
  | skip_op a => skip a
  | ack_op ackIds c resp => on_ack_done ackIds c None resp
  end.

(** The specification's reading of the same operations: the distinct ackIds
    tracked and not yet resolved, kept as a list without repetition. *)
Definition outstanding_step (l : list string) (op : TrackerOp) : list string :=
  match op with
  | track_op m => if bool_decide (ackId m ∈ l) then l else l ++ [ackId m]
  | skip_op a => filter (λ x, x ≠ a) l
  | ack_op ackIds _ _ => filter (λ x, x ∉ ackIds) l
  end.

Definition outstanding (ops : list TrackerOp) : list string :=
  foldl outstanding_step [] ops.

Definition tracker_step (m : gmap string bool) (op : TrackerOp)
  : gmap string bool :=
  match op with
  | track_op x => set_property (ackId x) m
  | skip_op a => delete a m
  | ack_op ackIds _ _ => untrack ackIds m
  end.

Definition represents (l : list string) (m : gmap string bool) : Prop :=
  NoDup l ∧ ∀ a, a ∈ l ↔ a ∈ dom m.

(** An operation that does not track the ackId ['__proto__']. *)
Definition ordinary (op : TrackerOp) : Prop :=
  match op with
  | track_op m => ackId m ≠ "__proto__"
  | _ => True
  end.

(** ** Sample subscriptions and worlds *)

Definition one_at_a_time : Options :=
  {| opt_autoAck := None; opt_interval := None;
     opt_maxInProgress := Some (Num 1) |}.

Definition delivery (ackIds : list string) : ApiResponse :=
  {| receivedMessages :=
       Some (map (λ a, {| raw_ackId := a; message := None |}) ackIds) |}.

(** One message delivered to a subscription that takes one at a time. *)
Definition paused_world : World :=
  default (boot one_at_a_time)
    (run [On "message"; Respond 0 None (delivery ["a1"])] (boot one_at_a_time)).

Definition defaults : Options :=
  {| opt_autoAck := None; opt_interval := None; opt_maxInProgress := None |}.

(** A subscription whose only listener was removed while its pull was in
    flight. *)
Definition closing_world : World :=
  default (boot defaults)
    (run [On "message"; RemoveListener "message"] (boot defaults)).

Definition autoAcking : Options :=
  {| opt_autoAck := Some true; opt_interval := None;
     opt_maxInProgress := None |}.

(** A subscription with a listener, its pull and a [delete] in flight. *)
Definition deleting_world : World :=
  default (boot defaults)
    (run [On "message"; Delete None] (boot defaults)).



(** A message whose ackId is the property name ['__proto__']. *)
Definition proto_message : Message :=
  {| ackId := "__proto__"; id := None; data := None; attributes := None |}.

(** * Names and endpoints

    [Subscription.formatName_], the id the constructor of [Subscription]
    hands to [ServiceObject], and [Dataset.prototype.determineApiEndpoint_]
    (lib/datastore/dataset.js). *)

(** [s.indexOf(needle)]: the first position where [needle] starts, or -1. *)
Fixpoint indexOf (needle s : string) : Z :=
  if String.prefix needle s then 0
  else match s with
       | EmptyString => -1
       | String _ r =>
           let i := indexOf needle r in if i =? -1 then -1 else i + 1
       end.

Definition formatName_ (projectId name : string) : string :=
  if -1 <? indexOf "/" name then name
  else "projects/" +:+ projectId +:+ "/subscriptions/" +:+ name.

(** [s.split('/')]: never empty. *)
Fixpoint split_slash (s : string) : list string :=
  match s with
  | EmptyString => [EmptyString]
  | String c r =>
      if bool_decide (c = "/"%char) then EmptyString :: split_slash r
      else match split_slash r with
           | x :: xs => String c x :: xs
           | [] => [String c EmptyString]
           end
  end.

(** [options.name.split('/').pop()] in the constructor of [Subscription]. *)
Definition unformattedName (name : string) : string :=
  List.last (split_slash name) EmptyString.

(** [s.replace(new RegExp('/*$'), '')]: the one match is the run of slashes
    that ends the string. *)
Fixpoint strip_trailing_slashes (s : string) : string :=
  match s with
  | EmptyString => EmptyString
  | String c r =>
      match strip_trailing_slashes r with
      | EmptyString =>
          if bool_decide (c = "/"%char) then EmptyString
          else String c EmptyString
      | r' => String c r'
      end
  end.

(** A string in a condition: [undefined] and [''] are falsy. *)
Definition truthy (o : option string) : option string :=
  match o with
  | Some EmptyString | None => None
  | Some s => Some s
  end.

(** The fields [determineApiEndpoint_] assigns; [customEndpoint] stays
    [undefined], here [false], when it is not set. *)
Record Endpoint := {
  apiEndpoint : string;
  customEndpoint : bool
}.

(** [DATASTORE_HOST] is [process.env.DATASTORE_HOST]. *)
Definition determineApiEndpoint_ (DATASTORE_HOST : option string)
    (customApiEndpoint : option string) : Endpoint :=
  let '(apiEndpoint, custom) :=
    match truthy customApiEndpoint with
    | Some e => (e, true)
    | None =>
        match truthy DATASTORE_HOST with
        | Some e => (e, true)
        | None => ("https://www.googleapis.com", false)
        end
    end in
  let apiEndpoint :=
    if negb (indexOf "http" apiEndpoint =? 0) then "http://" +:+ apiEndpoint
    else apiEndpoint in
  {| apiEndpoint := strip_trailing_slashes apiEndpoint;
     customEndpoint := custom |}.

(** * The moves of the object

    Every piece of code an input runs changes the object in one of these
    ways, leaving these effects. *)
Inductive moves (s : Subscription) : Subscription → list Effect → Prop :=
  | moves_same effs : quiet effs → moves s s effs
  | moves_poll :
      moves s s (if closed s || paused s then [] else [poll_request s])
  | moves_tracker m effs :
      quiet effs →
      moves s (refreshed (set_inProgressAckIds m s))
        (resume_effects (set_inProgressAckIds m s) ++ effs)
  | moves_on event : moves s (on_state event s) (on_effects event s)
  | moves_removeListener event : moves s (removeListener_state event s) []
  | moves_deleted effs :
      quiet effs →
      moves s (removeAllListeners_state (set_closed true s)) effs.

(** The paused flag against the count it was computed from. *)
Definition at_capacity (s : Subscription) : bool :=
  js_ge (inProgress s) (maxInProgress s).

(** What keeps the poll loop going: a pull request of the loop in flight,
    the acknowledge request [pull] sent on its behalf, or an armed timer. *)
Definition is_chain_handler (h : Handler) : bool :=
  match h with
  | pull_done startPulling_callback => true
  | ack_done _ (autoAck_callback startPulling_callback _ _) => true
  | _ => false
  end.

Definition alive (w : World) : Prop :=
  (∃ r h, (r, h) ∈ pending w ∧ is_chain_handler h = true) ∨ timers w ≠ [].

(** What a response handler ends with: only a handler of the poll loop
    can throw, and only the error it was given. *)
Definition handler_outcome (h : Handler) (err : option Error)
    (s : Subscription) : Outcome unit :=
  if is_chain_handler h then
    match unheard err s with
    | Some e => Throw e
    | None => Return tt
    end
  else Return tt.

(** The input is not a failure answered to the poll loop while no
    ['error'] listener is registered. *)
Definition heard (i : Input) (w : World) : bool :=
  match i with
  | Respond n (Some _) _ =>
      match pending w !! n with
      | Some (_, h) =>
          negb (is_chain_handler h)
          || bool_decide ("error" ∈ listeners (sub w))
      | None => true
      end
  | _ => true
  end.

Fixpoint all_heard (inputs : list Input) (w : World) : bool :=
  match inputs with
  | [] => true
  | i :: inputs' =>
      heard i w &&
      match step i w with
      | Some w' => all_heard inputs' w'
      | None => true
      end
  end.

(** Registering a ['message'] listener and removing it again, [n] times. *)
Definition reopen_rounds (n : nat) : list Input :=
  concat (replicate n [On "message"; RemoveListener "message"]).

(** * How each method runs

    One equation per method: the outcome, the object afterwards and the
    effects, in order. *)

Ltac run_step :=
  unfold bind, get, modify, tell, ret, throw, request, emit, setTimeout; simpl.

Lemma set_inProgressAckIds_id s :
  set_inProgressAckIds (inProgressAckIds s) s = s.
Proof. by destruct s. Qed.

Lemma startPulling__run s :
  startPulling_ s =
    (Return tt, s, if closed s || paused s then [] else [poll_request s]).
Proof.
  unfold startPulling_, pull, poll_request, poll_maxMessages. run_step.
  destruct (closed s || paused s); [done|].
  by destruct (lt_Infinity (maxInProgress s)).
Qed.

Lemma refreshPausedStatus__run s :
  refreshPausedStatus_ s =
    (Return tt, refreshed s,
     if resumes s && negb (closed s) then [poll_request (refreshed s)] else []).
Proof.
  unfold refreshPausedStatus_, resumes, refreshed. run_step.
  destruct (paused s && negb (js_ge (inProgress s) (maxInProgress s))
            && (0 <? messageListeners s)) eqn:E; simpl; [|done].
  rewrite startPulling__run. simpl.
  apply andb_prop in E as [E _]. apply andb_prop in E as [_ E].
  apply negb_true_iff in E. rewrite E, orb_false_r.
  by destruct (closed s).
Qed.

Lemma forEach_delete_run ackIds s :
  forEach delete_ackId ackIds s =
    (Return tt,
     set_inProgressAckIds (untrack ackIds (inProgressAckIds s)) s, []).
Proof.
  revert s. induction ackIds as [|a l IH]; intros s; simpl.
  - unfold ret, untrack. simpl. by rewrite set_inProgressAckIds_id.
  - unfold bind at 1. unfold delete_ackId at 1, modify. rewrite IH. done.
Qed.

Lemma mapM_decorate_run ms s :
  mapM decorateMessage_ ms s =
    (Return ms, set_inProgressAckIds (track ms (inProgressAckIds s)) s, []).
Proof.
  revert s. induction ms as [|x l IH]; intros s; simpl.
  - unfold ret, track. simpl. by rewrite set_inProgressAckIds_id.
  - unfold bind at 1. unfold decorateMessage_ at 1. run_step.
    unfold bind. rewrite IH. done.
Qed.

Lemma forEach_emit_run resp ms s :
  forEach (λ m, emit (message_event m resp)) ms s =
    (Return tt, s, map (λ m, Emit (message_event m resp)) ms).
Proof.
  induction ms as [|x l IH]; [done|].
  cbn [forEach map]. unfold bind.
  change (emit (message_event x resp) s)
    with (Return tt, s, [Emit (message_event x resp)]).
  cbv beta iota. by rewrite IH.
Qed.

Lemma emit_error_run e resp s :
  emit (error_event e resp) s =
    if bool_decide ("error" ∈ listeners s)
    then (Return tt, s, [Emit (error_event e resp)])
    else (Throw e, s, []).
Proof. unfold emit, bind, get. by case_bool_decide. Qed.

Lemma startPulling_callback_run err messages resp s :
  startPulling_callback_body err messages resp s =
    (pull_callback_outcome startPulling_callback err s, s,
     pull_callback_effects startPulling_callback err messages resp s).
Proof.
  unfold startPulling_callback_body, pull_callback_outcome,
    pull_callback_effects, unheard.
  unfold bind at 1.
  assert (F : (match messages with
               | Some ms => forEach (λ m, emit (message_event m resp)) ms
               | None => ret tt
               end) s = (Return tt, s, messages_emitted messages resp)).
  { destruct messages; [apply forEach_emit_run|done]. }
  destruct err as [e|].
  - rewrite emit_error_run. case_bool_decide; [|done].
    unfold bind. rewrite F. by run_step.
  - unfold ret at 1. unfold bind. rewrite F. by run_step.
Qed.

Lemma call_pull_run c err messages resp s :
  call_pull c err messages resp s =
    (pull_callback_outcome c err s, s,
     pull_callback_effects c err messages resp s).
Proof. destruct c; [apply startPulling_callback_run|done]. Qed.

Lemma call_ack_run c err resp s :
  call_ack c err resp s =
    (ack_callback_outcome c err s, s, ack_callback_effects c err resp s).
Proof. destruct c as [[|k]|c ms r]; [done|done|apply call_pull_run]. Qed.

Lemma pull_callback_outcome_success c s :
  pull_callback_outcome c None s = Return tt.
Proof. by destruct c. Qed.

Lemma ack_callback_outcome_success c s :
  ack_callback_outcome c None s = Return tt.
Proof. destruct c as [c|c ms r]; [done|apply pull_callback_outcome_success]. Qed.

Lemma ack_run ackIds callback s :
  ack ackIds callback s =
    match arrify_ackIds ackIds with
    | [] => (Throw "At least one ID must be specified before it can be acknowledged.",
             s, [])
    | l => (Return tt, s,
            [Requested (ReqAcknowledge l) (ack_done l (default (plain noop) callback))])
    end.
Proof. unfold ack. by destruct (arrify_ackIds ackIds). Qed.

Lemma refreshPausedStatus__run' s :
  refreshPausedStatus_ s = (Return tt, refreshed s, resume_effects s).
Proof. apply refreshPausedStatus__run. Qed.

Lemma skip_run a s :
  skip a s =
    (Return tt, refreshed (untracked [a] s), resume_effects (untracked [a] s)).
Proof.
  unfold skip, bind, delete_ackId, modify.
  by rewrite refreshPausedStatus__run'.
Qed.

Lemma on_ack_done_error ackIds c e resp s :
  on_ack_done ackIds c (Some e) resp s =
    (ack_callback_outcome c (Some e) s, s,
     ack_callback_effects c (Some e) resp s).
Proof.
  unfold on_ack_done, bind, ret. by rewrite call_ack_run.
Qed.

Lemma on_ack_done_success ackIds c resp s :
  on_ack_done ackIds c None resp s =
    (Return tt, refreshed (untracked ackIds s),
     resume_effects (untracked ackIds s)
       ++ ack_callback_effects c None resp (refreshed (untracked ackIds s))).
Proof.
  unfold on_ack_done, bind.
  by rewrite forEach_delete_run, refreshPausedStatus__run', call_ack_run,
    ack_callback_outcome_success.
Qed.

Lemma on_pull_done_error c e resp s :
  on_pull_done c (Some e) resp s =
    (pull_callback_outcome c (Some e) s, s,
     pull_callback_effects c (Some e) None resp s).
Proof. unfold on_pull_done. by rewrite call_pull_run. Qed.

Lemma on_pull_done_success c resp s :
  on_pull_done c None resp s =
    let ms := received resp in
    let s' := refreshed (tracked ms s) in
    (Return tt, s',
     resume_effects (tracked ms s) ++
       if autoAck s && negb (bool_decide (length ms = 0%nat))
       then [Requested (ReqAcknowledge (map ackId ms))
               (ack_done (map ackId ms) (autoAck_callback c ms resp))]
       else pull_callback_effects c None (Some ms) resp s').
Proof.
  unfold on_pull_done, bind. fold (received resp).
  rewrite mapM_decorate_run, refreshPausedStatus__run'.
  unfold get. cbn zeta. fold (tracked (received resp) s).
  replace (autoAck (refreshed (tracked (received resp) s))) with (autoAck s)
    by done.
  destruct (autoAck s); simpl;
    [|by rewrite call_pull_run, pull_callback_outcome_success].
  destruct (received resp) as [|m ms] eqn:E; simpl.
  - by rewrite call_pull_run, pull_callback_outcome_success.
  - done.
Qed.

Lemma on_newListener_run event s :
  on_newListener event s =
    (Return tt, newListener_state event s, newListener_effects event s).
Proof.
  unfold on_newListener, newListener_state, newListener_effects.
  destruct (bool_decide (event = "message")); [|done].
  run_step. destruct (closed s) eqn:C; [|done]. simpl.
  rewrite startPulling__run. simpl. by destruct (paused s).
Qed.

Lemma on_removeListener_run event s :
  on_removeListener event s = (Return tt, removeListener_hook_state event s, []).
Proof.
  unfold on_removeListener, removeListener_hook_state.
  destruct (bool_decide (event = "message")); [|done].
  run_step. by destruct (messageListeners s - 1 =? 0).
Qed.

Lemma on_run event s :
  on event s = (Return tt, on_state event s, on_effects event s).
Proof.
  unfold on, on_state, on_effects, bind, get.
  destruct (hooks s).
  - rewrite on_newListener_run. unfold modify. by rewrite app_nil_r.
  - done.
Qed.

Lemma removeListener_run event s :
  removeListener event s = (Return tt, removeListener_state event s, []).
Proof.
  unfold removeListener, removeListener_state, bind, get.
  destruct (bool_decide (event ∈ listeners s)); [|done].
  unfold modify. destruct (hooks s); [|done].
  by rewrite on_removeListener_run.
Qed.

Lemma forEach_removeListener_run l s :
  forEach removeListener l s =
    (Return tt, foldl (λ s event, removeListener_state event s) s l, []).
Proof.
  revert s. induction l as [|x l IH]; intros s; simpl; [done|].
  unfold bind. by rewrite removeListener_run, IH.
Qed.

Lemma removeAllListeners_run s :
  removeAllListeners s = (Return tt, removeAllListeners_state s, []).
Proof.
  unfold removeAllListeners, bind, get.
  by rewrite forEach_removeListener_run.
Qed.

Lemma call_run c err resp s :
  call c err resp s = (Return tt, s, callback_effects c err resp).
Proof. by destruct c. Qed.

Lemma on_delete_done_run c err resp s :
  on_delete_done c err resp s =
    (Return tt,
     match err with
     | Some _ => s
     | None => removeAllListeners_state (set_closed true s)
     end,
     callback_effects c err resp).
Proof.
  unfold on_delete_done. destruct err; [apply call_run|].
  unfold bind, modify. by rewrite removeAllListeners_run, call_run.
Qed.

(** * Invariants of the object *)

Lemma message_count_app l1 l2 :
  message_count (l1 ++ l2) = (message_count l1 + message_count l2)%nat.
Proof. unfold message_count. by rewrite filter_app, length_app. Qed.

Lemma message_count_remove_one event l :
  message_count (remove_one event l) =
    if bool_decide (event = "message") then pred (message_count l)
    else message_count l.
Proof.
  unfold message_count.
  induction l as [|x l IH]; simpl; [by case_bool_decide|].
  destruct (bool_decide (x = event)) eqn:Ex.
  - apply bool_decide_eq_true in Ex. subst x.
    rewrite filter_cons. case_bool_decide; case_decide; simpl; congruence.
  - apply bool_decide_eq_false in Ex.
    rewrite !filter_cons. destruct (decide (x = "message")) as [Hx|Hx];
      [|exact IH].
    subst x. rewrite bool_decide_false in * by done.
    cbn [length]. by rewrite IH.
Qed.

Lemma message_count_pos l : "message" ∈ l → (0 < message_count l)%nat.
Proof.
  unfold message_count. induction l as [|y l IH]; intros Hin.
  - by apply elem_of_nil in Hin.
  - rewrite filter_cons. destruct (decide (y = "message")); [simpl; lia|].
    apply elem_of_cons in Hin as [Heq|Hin]; [congruence|by apply IH].
Qed.

Lemma Inv_new options : Inv (new_Subscription options).
Proof. by split. Qed.

Lemma Inv_inProgress m s : Inv s → Inv (set_inProgressAckIds m s).
Proof. by intros [? ? ?]. Qed.

Lemma Inv_refreshed s : Inv s → Inv (refreshed s).
Proof.
  intros [? ? ?]. split; [done|done|].
  unfold refreshed. simpl. by destruct (maxInProgress s).
Qed.

Lemma Inv_on event s : Inv s → Inv (on_state event s).
Proof.
  intros [Hc Hn Hp]. unfold counted in Hn.
  unfold on_state, newListener_state, counted.
  destruct s as [aa cl iv ip mx ml pa hk ls]; simpl in *.
  destruct hk; simpl.
  - case_bool_decide as Ev; simpl.
    + subst event. destruct cl; simpl; (split; unfold counted; simpl;
        [|rewrite message_count_app; unfold message_count at 2; simpl; lia|done]).
      * symmetry. apply negb_false_iff, Z.ltb_lt. lia.
      * symmetry in Hc. apply negb_false_iff, Z.ltb_lt in Hc.
        symmetry. apply negb_false_iff, Z.ltb_lt. lia.
    + split; unfold counted; simpl; [done| |done].
      rewrite message_count_app. unfold message_count at 2.
      rewrite filter_cons. case_decide; [congruence|]. simpl. lia.
  - by split.
Qed.

Lemma removeListener_state_frame event s :
  let s' := removeListener_state event s in
  autoAck s' = autoAck s ∧ interval s' = interval s ∧
  inProgressAckIds s' = inProgressAckIds s ∧
  maxInProgress s' = maxInProgress s ∧ paused s' = paused s ∧
  hooks s' = hooks s ∧
  message_count (listeners s') =
    (if bool_decide (event = "message") then pred (message_count (listeners s))
     else message_count (listeners s)) ∧
  (closed s = true → closed s' = true).
Proof.
  unfold removeListener_state, removeListener_hook_state.
  destruct s as [aa cl iv ip mx ml pa hk ls]; simpl.
  case_bool_decide as Hin; simpl.
  - destruct hk; simpl.
    + case_bool_decide as Ev; simpl.
      * destruct (ml - 1 =? 0); simpl;
          rewrite message_count_remove_one, bool_decide_true; done.
      * by rewrite message_count_remove_one, bool_decide_false.
    + rewrite message_count_remove_one. repeat split; try done.
  - repeat split; try done.
    case_bool_decide as Ev; [|done]. subst event.
    destruct (message_count ls) eqn:E; [done|].
    exfalso. apply Hin. unfold message_count in E.
    assert (H : ∃ x, x ∈ filter (λ x, x = "message") ls).
    { destruct (filter _ ls) as [|x l']; [done|]. exists x. by left. }
    destruct H as [x Hx]. apply list_elem_of_filter in Hx as [-> Hx]. done.
Qed.

Lemma counted_removeListener event s :
  counted s → counted (removeListener_state event s).
Proof.
  unfold counted, removeListener_state, removeListener_hook_state.
  destruct s as [aa cl iv ip mx ml pa hk ls]; simpl.
  intros Hn. case_bool_decide as Hin; simpl; [|done].
  destruct hk; simpl; [|done].
  case_bool_decide as Ev; simpl.
  - subst event. apply message_count_pos in Hin.
    assert (ml - 1 = Z.of_nat (message_count (remove_one "message" ls))).
    { rewrite message_count_remove_one, bool_decide_true by done. lia. }
    by destruct (ml - 1 =? 0).
  - by rewrite message_count_remove_one, bool_decide_false.
Qed.

Lemma Inv_removeListener event s : Inv s → Inv (removeListener_state event s).
Proof.
  intros [Hc Hn Hp].
  split; [|by apply counted_removeListener|].
  - unfold counted in Hn.
    unfold removeListener_state, removeListener_hook_state.
    destruct s as [aa cl iv ip mx ml pa hk ls]; simpl in *.
    case_bool_decide as Hin; simpl; [|done].
    destruct hk; simpl; [|done].
    case_bool_decide as Ev; simpl; [|done].
    subst event. apply message_count_pos in Hin.
    destruct (ml - 1 =? 0) eqn:E; simpl.
    + apply Z.eqb_eq in E. by rewrite E.
    + apply Z.eqb_neq in E. rewrite Hc.
      assert (H1 : (0 <? ml) = true) by (apply Z.ltb_lt; lia).
      assert (H2 : (0 <? ml - 1) = true) by (apply Z.ltb_lt; lia).
      by rewrite H1, H2.
  - destruct (removeListener_state_frame event s) as (_&_&_&->&->&_). done.
Qed.

Lemma message_count_cons x l :
  message_count (x :: l) =
    ((if bool_decide (x = "message") then 1 else 0) + message_count l)%nat.
Proof.
  unfold message_count. rewrite filter_cons.
  destruct (decide (x = "message")).
  - by rewrite bool_decide_true.
  - by rewrite bool_decide_false.
Qed.

Lemma removeListeners_frame l s :
  let s' := foldl (λ s event, removeListener_state event s) s l in
  autoAck s' = autoAck s ∧ interval s' = interval s ∧
  inProgressAckIds s' = inProgressAckIds s ∧
  maxInProgress s' = maxInProgress s ∧ paused s' = paused s ∧
  hooks s' = hooks s ∧
  message_count (listeners s') =
    (message_count (listeners s) - message_count l)%nat ∧
  (closed s = true → closed s' = true) ∧
  (counted s → counted s').
Proof.
  revert s. induction l as [|x l IH]; intros s; simpl.
  - change (message_count []) with 0%nat. rewrite Nat.sub_0_r. done.
  - destruct (removeListener_state_frame x s)
      as (Ha & Hi & Hp & Hm & Hpa & Hh & Hc & Hcl).
    destruct (IH (removeListener_state x s))
      as (Ha' & Hi' & Hp' & Hm' & Hpa' & Hh' & Hc' & Hcl' & Hn').
    repeat split; try congruence.
    + rewrite Hc', Hc, message_count_cons. case_bool_decide; lia.
    + auto.
    + intros Hn. by apply Hn', counted_removeListener.
Qed.

Lemma Inv_deleted s : Inv s → Inv (removeAllListeners_state (set_closed true s)).
Proof.
  intros [Hc Hn Hp]. unfold removeAllListeners_state.
  destruct (removeListeners_frame (listeners (set_closed true s))
              (set_closed true s))
    as (_ & _ & _ & Hm & Hpa & Hh & Hcount & Hcl & Hn').
  specialize (Hcl eq_refl). specialize (Hn' Hn).
  replace (listeners (set_closed true s)) with (listeners s) in * by done.
  set (s2 := foldl _ _ _) in *.
  assert (Hz : messageListeners s2 = 0).
  { unfold counted in Hn'. destruct (hooks s2); [|done].
    rewrite Hn', Hcount. simpl. lia. }
  split; simpl.
  - by rewrite Hcl, Hz.
  - done.
  - rewrite Hpa, Hm. exact Hp.
Qed.

(** * What one input can do *)

Lemma poll_request_ext s s' :
  maxInProgress s = maxInProgress s' →
  inProgressAckIds s = inProgressAckIds s' →
  poll_request s = poll_request s'.
Proof.
  intros Hm Hi. unfold poll_request, poll_maxMessages, inProgress.
  by rewrite Hm, Hi.
Qed.

Lemma quiet_polls s effs :
  quiet effs → Forall (λ e, is_poll_request e = true → e = poll_request s) effs.
Proof.
  unfold quiet. intros H. eapply Forall_impl; [exact H|].
  simpl. congruence.
Qed.

Lemma quiet_app e1 e2 : quiet e1 → quiet e2 → quiet (e1 ++ e2).
Proof. unfold quiet. intros. by apply Forall_app. Qed.

Lemma quiet_poll_requests effs : quiet effs → poll_requests effs = [].
Proof.
  unfold quiet, poll_requests. induction 1 as [|e l He _ IH]; simpl; [done|].
  by rewrite He.
Qed.

Lemma quiet_pull_callback c err ms resp s :
  quiet (pull_callback_effects c err ms resp s).
Proof.
  destruct c; simpl; [|by repeat constructor].
  destruct (unheard err s); [constructor|].
  repeat apply quiet_app.
  - destruct err; by repeat constructor.
  - destruct ms as [l|]; simpl; [|constructor].
    induction l; by constructor.
  - by repeat constructor.
Qed.

Lemma quiet_ack_callback c err resp s : quiet (ack_callback_effects c err resp s).
Proof.
  destruct c as [[|k]|c ms r]; simpl; try by repeat constructor.
  apply quiet_pull_callback.
Qed.

Lemma quiet_callback c err resp : quiet (callback_effects c err resp).
Proof. destruct c; by repeat constructor. Qed.

Lemma resume_effects_polls s :
  Forall (λ e, is_poll_request e = true → e = poll_request (refreshed s))
    (resume_effects s).
Proof. unfold resume_effects. destruct (_ && _); by repeat constructor. Qed.

Lemma resume_effects_closed s : closed s = true → resume_effects s = [].
Proof. unfold resume_effects. intros ->. by rewrite andb_false_r. Qed.

Lemma step_ok_refresh reopening s m effs :
  quiet effs →
  step_ok reopening s (refreshed (set_inProgressAckIds m s))
    (resume_effects (set_inProgressAckIds m s) ++ effs).
Proof.
  intros Hq. split; try done.
  - intros. by apply Inv_refreshed, Inv_inProgress.
  - apply Forall_app. split; [apply resume_effects_polls|by apply quiet_polls].
  - intros Hc _. split; [done|].
    rewrite resume_effects_closed by done. done.
Qed.

Lemma step_ok_same reopening s effs : quiet effs → step_ok reopening s s effs.
Proof. intros Hq. split; try done. by apply quiet_polls. Qed.

Lemma step_ok_startPulling reopening s :
  step_ok reopening s s (if closed s || paused s then [] else [poll_request s]).
Proof.
  split; try done.
  - destruct (_ || _); by repeat constructor.
  - intros ->. simpl. by split; [|constructor].
Qed.

Lemma on_state_frame event s :
  let s' := on_state event s in
  autoAck s' = autoAck s ∧ interval s' = interval s ∧
  inProgressAckIds s' = inProgressAckIds s ∧
  maxInProgress s' = maxInProgress s ∧ paused s' = paused s ∧
  (event ≠ "message" → closed s' = closed s).
Proof.
  unfold on_state, newListener_state.
  destruct s as [aa cl iv ip mx ml pa hk ls]; simpl.
  destruct hk; simpl; [|done].
  case_bool_decide; simpl; [|done]. by destruct cl.
Qed.

Lemma step_ok_on event s :
  step_ok (event = "message") s (on_state event s) (on_effects event s).
Proof.
  destruct (on_state_frame event s) as (Ha & Hi & Hp & Hm & Hpa & Hc).
  split; try done.
  - apply Inv_on.
  - unfold on_effects, newListener_effects.
    destruct (hooks s); [|constructor].
    destruct (_ && _); repeat constructor.
    intros _. by apply poll_request_ext.
  - intros Hcl Hne. split; [by rewrite Hc|].
    unfold on_effects, newListener_effects.
    rewrite bool_decide_false by done. by destruct (hooks s); constructor.
Qed.

Lemma step_ok_removeListener reopening event s :
  step_ok reopening s (removeListener_state event s) [].
Proof.
  destruct (removeListener_state_frame event s)
    as (Ha & Hi & Hp & Hm & Hpa & Hh & Hc & Hcl).
  split; try done.
  - apply Inv_removeListener.
  - intros. split; [auto|constructor].
Qed.

Lemma step_ok_deleted reopening effs s :
  quiet effs →
  step_ok reopening s (removeAllListeners_state (set_closed true s)) effs.
Proof.
  intros Hq. unfold removeAllListeners_state.
  destruct (removeListeners_frame (listeners (set_closed true s))
              (set_closed true s))
    as (Ha & Hi & Hp & Hm & Hpa & Hh & Hcount & Hcl & Hn').
  split; try done.
  - apply Inv_deleted.
  - by apply quiet_polls.
  - intros. split; [by apply Hcl|done].
Qed.

Lemma step_ok_weaken (R R' : Prop) s s' effs :
  (¬ R' → ¬ R) → step_ok R s s' effs → step_ok R' s s' effs.
Proof. intros HR [? ? ? ? ? Hc]. split; auto. Qed.

Lemma handle_ok R h err resp s :
  ∃ o s' effs, handle h err resp s = (o, s', effs) ∧ step_ok R s s' effs.
Proof.
  destruct h as [ackIds c|c|c|c]; simpl.
  - destruct err as [e|].
    + rewrite on_ack_done_error. eexists _, _, _. split; [done|].
      apply step_ok_same, quiet_ack_callback.
    + rewrite on_ack_done_success. eexists _, _, _. split; [done|].
      apply step_ok_refresh, quiet_ack_callback.
  - destruct err as [e|].
    + rewrite on_pull_done_error. eexists _, _, _. split; [done|].
      apply step_ok_same, quiet_pull_callback.
    + rewrite on_pull_done_success. eexists _, _, _. split; [done|].
      apply step_ok_refresh.
      destruct (_ && _); [by repeat constructor|apply quiet_pull_callback].
  - rewrite call_run. eexists _, _, _. split; [done|].
    apply step_ok_same, quiet_callback.
  - rewrite on_delete_done_run. eexists _, _, _. split; [done|].
    destruct err.
    + apply step_ok_same, quiet_callback.
    + apply step_ok_deleted, quiet_callback.
Qed.

Lemma dispatch_ok i w p t m s :
  dispatch i w = Some (p, t, m) →
  ∃ o s' effs, m s = (o, s', effs) ∧ step_ok (i = On "message") s s' effs.
Proof.
  destruct i as [ev|ev|ids cb|a|opts cb|ids secs cb|cb|n err resp|n]; simpl.
  - intros [= <- <- <-]. rewrite on_run. eexists _, _, _. split; [done|].
    eapply step_ok_weaken; [|apply step_ok_on]. naive_solver.
  - intros [= <- <- <-]. rewrite removeListener_run. eexists _, _, _.
    split; [done|]. apply step_ok_removeListener.
  - intros [= <- <- <-]. rewrite ack_run. destruct (arrify_ackIds ids);
      eexists _, _, _; (split; [done|]); apply step_ok_same;
      by repeat constructor.
  - intros [= <- <- <-]. rewrite skip_run. eexists _, _, _. split; [done|].
    rewrite <- (app_nil_r (resume_effects _)).
    apply step_ok_refresh. constructor.
  - intros [= <- <- <-]. eexists _, _, _. split; [done|].
    apply step_ok_same. by repeat constructor.
  - intros [= <- <- <-]. eexists _, _, _. split; [done|].
    apply step_ok_same. by repeat constructor.
  - intros [= <- <- <-]. eexists _, _, _. split; [done|].
    apply step_ok_same. by repeat constructor.
  - destruct (pending w !! n) as [[r h]|]; [|done]. intros [= <- <- <-].
    destruct (handle_ok (Respond n err resp = On "message") h err resp s)
      as (o & s' & effs & -> & Hok).
    by eexists _, _, _.
  - destruct (timers w !! n); [|done]. intros [= <- <- <-].
    rewrite startPulling__run. eexists _, _, _. split; [done|].
    apply step_ok_startPulling.
Qed.

Lemma step_inv i w w' :
  step i w = Some w' →
  ∃ p t m o effs,
    dispatch i w = Some (p, t, m) ∧ m (sub w) = (o, sub w', effs) ∧
    step_ok (i = On "message") (sub w) (sub w') effs ∧
    pending w' = p ++ requests_of effs ∧
    timers w' = t ++ timeouts_of effs ∧
    trace w' = trace w ++ effs ++ uncaught o.
Proof.
  unfold step. destruct (dispatch i w) as [[[p t] m]|] eqn:D; [|done].
  intros [= <-].
  destruct (dispatch_ok _ _ _ _ _ (sub w) D) as (o & s' & effs & Hm & Hok).
  exists p, t, m, o, effs. unfold exec_on. rewrite Hm. simpl.
  by destruct o.
Qed.

Lemma reachable_Inv options w :
  reachable options w →
  Inv (sub w) ∧
  autoAck (sub w) = autoAck (new_Subscription options) ∧
  interval (sub w) = interval (new_Subscription options) ∧
  maxInProgress (sub w) = maxInProgress (new_Subscription options).
Proof.
  induction 1 as [|i w w' _ (HI & Ha & Hi & Hm) Hstep].
  - split; [apply Inv_new|done].
  - apply step_inv in Hstep as (p & t & m & o & effs & _ & _ & Hok & _).
    destruct Hok as [Ha' Hi' Hm' HI' _ _].
    split; [by apply HI'|]. split; [congruence|]. split; congruence.
Qed.

(** * Requests, emissions and the tracker *)

Lemma requests_of_app e1 e2 :
  requests_of (e1 ++ e2) = requests_of e1 ++ requests_of e2.
Proof. apply omap_app. Qed.

Lemma requests_of_pull_callback c err ms resp s :
  requests_of (pull_callback_effects c err ms resp s) = [].
Proof.
  destruct c; simpl; [|done].
  destruct (unheard err s); [done|].
  rewrite !requests_of_app.
  assert (requests_of (error_emitted err resp) = []) as -> by by destruct err.
  assert (requests_of (messages_emitted ms resp) = []) as ->; [|done].
  destruct ms as [l|]; simpl; [|done]. by induction l.
Qed.

Lemma requests_of_ack_callback c err resp s :
  requests_of (ack_callback_effects c err resp s) = [].
Proof.
  destruct c as [[|k]|c ms r]; simpl; [done|done|].
  apply requests_of_pull_callback.
Qed.

Lemma acknowledge_requests_resume s : acknowledge_requests (resume_effects s) = [].
Proof. unfold resume_effects. by destruct (_ && _). Qed.

Lemma acknowledge_requests_app e1 e2 :
  acknowledge_requests (e1 ++ e2)
  = acknowledge_requests e1 ++ acknowledge_requests e2.
Proof. unfold acknowledge_requests. by rewrite requests_of_app, omap_app. Qed.

Lemma tracked_nil s : tracked [] s = s.
Proof. apply set_inProgressAckIds_id. Qed.

Lemma exec_on_run w p t m o s' effs :
  m (sub w) = (o, s', effs) →
  exec_on w p t m =
    {| sub := s'; pending := p ++ requests_of effs;
       timers := t ++ timeouts_of effs;
       trace := trace w ++ effs ++ uncaught o |}.
Proof. unfold exec_on. by intros ->. Qed.

Lemma step_Respond w i r h err resp :
  pending w !! i = Some (r, h) →
  step (Respond i err resp) w =
    Some (exec_on w (delete i (pending w)) (timers w) (handle h err resp)).
Proof. unfold step. simpl. by intros ->. Qed.



Lemma js_lt_ge a b : js_lt a b = true → js_ge a b = false.
Proof.
  destruct b; simpl; try done.
  - rewrite Z.ltb_lt, Z.leb_gt. lia.
  - rewrite Z.ltb_lt, Z.leb_gt. lia.
Qed.

Lemma resume_effects_resuming s :
  Inv s → paused s = true → 0 < messageListeners s →
  js_lt (inProgress s) (maxInProgress s) = true →
  refreshed s = set_paused false s ∧ resume_effects s = [poll_request s].
Proof.
  intros [Hc _ _] Hp Hl Hlt. apply js_lt_ge in Hlt.
  unfold resume_effects, resumes, refreshed. rewrite Hlt, Hp, Hc.
  apply Z.ltb_lt in Hl. rewrite Hl. simpl. by split.
Qed.

Lemma reachable_run options inputs w w' :
  reachable options w → run inputs w = Some w' → reachable options w'.
Proof.
  revert w. induction inputs as [|i l IH]; intros w Hr; simpl.
  - by intros [= <-].
  - destruct (step i w) as [w1|] eqn:E; [|done].
    apply IH. by eapply reachable_step.
Qed.

Lemma poll_requests_app e1 e2 :
  poll_requests (e1 ++ e2) = poll_requests e1 ++ poll_requests e2.
Proof. apply List.filter_app. Qed.

Lemma closed_step_quiet i w w' :
  closed (sub w) = true → i ≠ On "message" → step i w = Some w' →
  closed (sub w') = true ∧ poll_requests (trace w') = poll_requests (trace w).
Proof.
  intros Hc Hi Hstep.
  apply step_inv in Hstep as (p & t & m & o & effs & _ & _ & Hok & _ & _ & Ht).
  destruct Hok as [_ _ _ _ _ Hcl].
  destruct (Hcl Hc Hi) as [Hc' Hq]. split; [done|].
  rewrite Ht, !poll_requests_app, (quiet_poll_requests _ Hq).
  destruct o; simpl; by rewrite app_nil_r.
Qed.

Lemma represents_size l (m : gmap string bool) :
  represents l m → size m = length l.
Proof.
  intros [Hnd Hin]. rewrite <- size_dom.
  unfold size, set_size. simpl.
  apply Permutation_length, NoDup_Permutation.
  - apply NoDup_elements.
  - done.
  - intros a. rewrite elem_of_elements. by rewrite Hin.
Qed.

Lemma untrack_lookup ackIds (m : gmap string bool) a :
  untrack ackIds m !! a = if bool_decide (a ∈ ackIds) then None else m !! a.
Proof.
  unfold untrack. revert m. induction ackIds as [|x l IH]; intros m; simpl.
  - done.
  - rewrite IH. destruct (decide (a = x)) as [->|Hne].
    + rewrite lookup_delete_eq, (bool_decide_true (x ∈ x :: l)) by by left.
      by case_bool_decide.
    + rewrite lookup_delete_ne by done.
      case_bool_decide as H1; case_bool_decide as H2; try done.
      * exfalso. apply H2. by right.
      * apply elem_of_cons in H2 as [?|?]; done.
Qed.

Lemma set_property_ordinary key (obj : gmap string bool) :
  key ≠ "__proto__" → set_property key obj = <[key := true]> obj.
Proof. intros H. unfold set_property. by rewrite bool_decide_false. Qed.

Lemma represents_step l m op :
  ordinary op →
  represents l m → represents (outstanding_step l op) (tracker_step m op).
Proof.
  intros Hop [Hnd Hin]. destruct op as [x|a|ackIds c resp]; simpl.
  - simpl in Hop. rewrite (set_property_ordinary _ _ Hop).
    case_bool_decide as Hx.
    + split; [done|]. intros a.
      rewrite dom_insert_L, elem_of_union, elem_of_singleton, <- Hin.
      split; [auto|]. by intros [->|?].
    + split.
      * apply NoDup_app. split; [done|]. split; [|apply NoDup_singleton].
        intros y Hy ->%list_elem_of_singleton. done.
      * intros a.
        rewrite dom_insert_L, elem_of_app, elem_of_union, Hin,
          list_elem_of_singleton, elem_of_singleton.
        tauto.
  - split; [by apply NoDup_filter|].
    intros y.
    rewrite list_elem_of_filter, dom_delete_L, elem_of_difference,
      elem_of_singleton, Hin.
    tauto.
  - split; [by apply NoDup_filter|].
    intros y. rewrite list_elem_of_filter, Hin, !elem_of_dom, untrack_lookup.
    case_bool_decide; [|tauto].
    split; [tauto|]. by intros [? ?].
Qed.

Lemma run_op_run op s :
  ∃ s' effs,
    run_op op s = (Return tt, s', effs) ∧
    inProgressAckIds s' = tracker_step (inProgressAckIds s) op.
Proof.
  destruct op as [x|a|ackIds c resp]; simpl.
  - by eexists _, _.
  - rewrite skip_run. by eexists _, _.
  - rewrite on_ack_done_success. by eexists _, _.
Qed.

Lemma forEach_run_op_run ops s :
  ∃ s' effs,
    forEach run_op ops s = (Return tt, s', effs) ∧
    inProgressAckIds s' = foldl tracker_step (inProgressAckIds s) ops.
Proof.
  revert s. induction ops as [|op l IH]; intros s; simpl.
  - by eexists _, _.
  - destruct (run_op_run op s) as (s1 & e1 & H1 & Hm1).
    destruct (IH s1) as (s2 & e2 & H2 & Hm2).
    exists s2, (e1 ++ e2). unfold bind. rewrite H1, H2.
    split; [done|]. by rewrite Hm2, Hm1.
Qed.

Lemma represents_foldl ops l m :
  Forall ordinary ops →
  represents l m →
  represents (foldl outstanding_step l ops) (foldl tracker_step m ops).
Proof.
  revert l m. induction ops as [|op ops IH]; intros l m Hops H; simpl; [done|].
  apply Forall_cons in Hops as [Hop Hops].
  by apply IH, represents_step.
Qed.

Lemma untrack_absent ackIds (m : gmap string bool) :
  (∀ a, a ∈ ackIds → m !! a = None) → untrack ackIds m = m.
Proof.
  intros H. apply map_eq. intros a. rewrite untrack_lookup.
  case_bool_decide; [|done]. symmetry. by apply H.
Qed.

Lemma emitted_messages_app e1 e2 :
  emitted_messages (e1 ++ e2) = emitted_messages e1 ++ emitted_messages e2.
Proof. apply omap_app. Qed.

Lemma emitted_messages_resume s : emitted_messages (resume_effects s) = [].
Proof. unfold resume_effects. by destruct (_ && _). Qed.

Lemma emitted_messages_poll_callback err ms resp s :
  unheard err s = None →
  emitted_messages
    (pull_callback_effects startPulling_callback err (Some ms) resp s) = ms.
Proof.
  intros Hu. simpl. rewrite Hu, !emitted_messages_app.
  assert (emitted_messages (error_emitted err resp) = []) as ->
    by by destruct err.
  simpl. rewrite app_nil_r.
  induction ms as [|m l IH]; simpl; [done|]. by f_equal.
Qed.

Lemma set_property_lookup key (obj : gmap string bool) a :
  set_property key obj !! a =
    if bool_decide (a = key ∧ a ≠ "__proto__") then Some true else obj !! a.
Proof.
  unfold set_property. case_bool_decide as Hk.
  - subst key. rewrite bool_decide_false; [done|]. by intros [-> ?].
  - destruct (decide (a = key)) as [->|Hne].
    + by rewrite lookup_insert_eq, bool_decide_true.
    + rewrite lookup_insert_ne by done.
      rewrite bool_decide_false; [done|]. by intros [? _].
Qed.

Lemma track_lookup ms (m0 : gmap string bool) a :
  track ms m0 !! a =
    if bool_decide (a ∈ map ackId ms ∧ a ≠ "__proto__") then Some true
    else m0 !! a.
Proof.
  unfold track. revert m0. induction ms as [|x l IH]; intros m0; simpl.
  - done.
  - rewrite IH, set_property_lookup.
    case_bool_decide as H1.
    + rewrite bool_decide_true; [done|].
      destruct H1 as [H1 H2]. split; [by right|done].
    + case_bool_decide as H2.
      * destruct H2 as [-> H2]. rewrite bool_decide_true; [done|].
        split; [by left|done].
      * rewrite bool_decide_false; [done|].
        intros [[?|?]%elem_of_cons ?]; [by apply H2|by apply H1].
Qed.

(** * Numbers *)

Lemma sgn_abs z : Z.sgn z * Z.abs z = z.
Proof. by destruct z. Qed.

Lemma round64_exact z e :
  - 2 ^ 53 < z < 2 ^ 53 → -1074 ≤ e ≤ 0 → round64 z e = dyadic z e.
Proof.
  intros Hz He. unfold round64.
  assert (Hl : Z.log2 (Z.abs z) - 52 ≤ 0).
  { destruct (decide (z = 0)) as [->|Hne]; [done|].
    assert (Z.log2 (Z.abs z) < 53); [|lia].
    apply Z.log2_lt_pow2; lia. }
  assert (Hsh : (Z.max (Z.log2 (Z.abs z) - 52) (-1074 - e) <=? 0) = true)
    by (apply Z.leb_le; lia).
  rewrite Hsh.
  assert (Hbig : (0 <=? e) && (2 ^ 1024 <=? Z.abs z * 2 ^ e) = false).
  { destruct (0 <=? e) eqn:E; [|done]. apply Z.leb_le in E.
    assert (e = 0) as -> by lia. simpl andb.
    apply Z.leb_gt. rewrite Z.pow_0_r, Z.mul_1_r.
    assert (2 ^ 53 < 2 ^ 1024) by (apply Z.pow_lt_mono_r; lia). lia. }
  by rewrite Hbig, sgn_abs.
Qed.

Lemma js_minus_safe n c :
  - 2 ^ 53 < n - c < 2 ^ 53 → js_minus (Num n) c = Num (n - c).
Proof.
  intros H. unfold js_minus. destruct (c =? 0) eqn:E.
  - apply Z.eqb_eq in E. subst c. by rewrite Z.sub_0_r.
  - rewrite round64_exact by lia. unfold dyadic.
    change (0 <=? 0) with true. cbv iota.
    by rewrite Z.pow_0_r, Z.mul_1_r.
Qed.

Lemma js_minus_Frac_exact m k c :
  0 < c → Z.pos k ≤ 1074 →
  - 2 ^ 53 < m - c * 2 ^ Z.pos k < 2 ^ 53 →
  js_minus (Frac m k) c = dyadic (m - c * 2 ^ Z.pos k) (- Z.pos k).
Proof.
  intros Hc Hk H. unfold js_minus.
  assert ((c =? 0) = false) as -> by (apply Z.eqb_neq; lia).
  apply round64_exact; lia.
Qed.

(** Beyond the safe integers the difference is rounded, a tie going to the
    even significand; so is that of a fraction when it needs more than 53
    bits ([0.3 - 1], while [1.5 - 1] is exact); an infinity stays one. *)
Lemma js_minus_rounds :
  js_minus (Num (2 ^ 53 + 2)) 1 = Num (2 ^ 53) ∧
  js_minus (Num (2 ^ 53 + 4)) 1 = Num (2 ^ 53 + 4) ∧
  js_minus (Num (- 2 ^ 53)) 1 = Num (- 2 ^ 53) ∧
  js_minus (Frac 3 1) 1 = Frac 1 1 ∧
  js_minus (Frac 5404319552844595 54) 1 = Frac (-3152519739159347) 52 ∧
  js_minus NegInfinity 7 = NegInfinity.
Proof. repeat split; vm_compute; reflexivity. Qed.

Lemma step_On w event :
  step (On event) w =
    Some {| sub := on_state event (sub w);
            pending := pending w ++ requests_of (on_effects event (sub w));
            timers := timers w ++ timeouts_of (on_effects event (sub w));
            trace := trace w ++ on_effects event (sub w) ++ [] |}.
Proof.
  unfold step. cbn [dispatch].
  by rewrite (exec_on_run _ _ _ _ _ _ _ (on_run event (sub w))).
Qed.

Lemma step_RemoveListener w event :
  step (RemoveListener event) w =
    Some {| sub := removeListener_state event (sub w);
            pending := pending w ++ [];
            timers := timers w ++ [];
            trace := trace w ++ [] |}.
Proof.
  unfold step. cbn [dispatch].
  by rewrite (exec_on_run _ _ _ _ _ _ _ (removeListener_run event (sub w))).
Qed.

(** * The claims *)

(** C1, as stated, fails.  With [autoAck] on, a pull of the poll loop
    brings two messages: once its handler has run, the acknowledge request
    is outstanding and no ['message'] event has been emitted; both are
    emitted in the step that handles the completion of that request. *)
Lemma autoAck_emission_waits_for_ack :
  ∃ w2 w3,
    run [On "message"; Respond 0 None (delivery ["a1"; "a2"])]
      (boot autoAcking) = Some w2 ∧
    emitted_messages (trace w2) = [] ∧
    map fst (pending w2) = [ReqAcknowledge ["a1"; "a2"]] ∧
    step (Respond 0 None {| receivedMessages := None |}) w2 = Some w3 ∧
    map ackId (emitted_messages (trace w3)) = ["a1"; "a2"].
Proof.
  eexists _, _. split; [vm_compute; reflexivity|].
  split; [reflexivity|]. split; [reflexivity|].
  split; [vm_compute; reflexivity|]. reflexivity.
Qed.

(** C1, amended.  With [autoAck] on, the handler of a successful pull with
    at least one message emits nothing: it sends the acknowledge request for
    the received ackIds.  The handler of that request passes its outcome,
    the messages and the pull response to the callback the pull was given,
    and to nothing else.  For the poll loop that callback emits the
    messages, in the order received, when the request succeeded; when it
    failed it emits the error first and then the messages if an ['error']
    listener is registered, and otherwise [emit('error')] throws the error
    and nothing is emitted. *)
Theorem autoAck_emits_on_ack_completion (c : PullCallback)
    (resp : ApiResponse) (s : Subscription) :
  autoAck s = true →
  received resp ≠ [] →
  ∃ effs,
    on_pull_done c None resp s =
      (Return tt, refreshed (tracked (received resp) s), effs) ∧
    emitted_messages effs = [] ∧
    acknowledge_requests effs = [map ackId (received resp)] ∧
    (∀ r h, (r, h) ∈ requests_of effs → is_poll_request (Requested r h) = false →
       h = ack_done (map ackId (received resp))
             (autoAck_callback c (received resp) resp)) ∧
    ∀ err ackResp s1, ∃ s2 before,
      handle (ack_done (map ackId (received resp))
                (autoAck_callback c (received resp) resp)) err ackResp s1 =
        (pull_callback_outcome c err s2, s2,
         before ++ pull_callback_effects c err (Some (received resp)) resp s2) ∧
      (before = [] ∨ before = [poll_request s2]) ∧
      (err = None ∨ "error" ∈ listeners s2 →
         pull_callback_outcome startPulling_callback err s2 = Return tt ∧
         emitted_messages
           (before ++ pull_callback_effects startPulling_callback err
                        (Some (received resp)) resp s2) = received resp) ∧
      (∀ e, err = Some e → "error" ∉ listeners s2 →
         s2 = s1 ∧ before = [] ∧
         pull_callback_outcome startPulling_callback err s2 = Throw e ∧
         pull_callback_effects startPulling_callback err
           (Some (received resp)) resp s2 = []).
Proof.
  intros Ha Hne. rewrite on_pull_done_success, Ha. cbn zeta.
  assert (Hl : negb (bool_decide (length (received resp) = 0%nat)) = true)
    by by destruct (received resp).
  rewrite Hl. cbn [andb].
  eexists. split; [done|].
  split; [|split; [|split]].
  - by rewrite emitted_messages_app, emitted_messages_resume.
  - by rewrite acknowledge_requests_app, acknowledge_requests_resume.
  - intros r h. rewrite requests_of_app, elem_of_app.
    unfold resume_effects. intros [Hin|Hin] Hq.
    + destruct (_ && _); simpl in Hin.
      * apply list_elem_of_singleton in Hin. injection Hin as -> ->. done.
      * by apply elem_of_nil in Hin.
    + simpl in Hin. apply list_elem_of_singleton in Hin. by injection Hin as -> ->.
  - intros err ackResp s1. cbn [handle]. destruct err as [e|].
    + rewrite on_ack_done_error. exists s1, []. split; [done|].
      split; [by left|]. split.
      * intros [?|Hin]; [done|].
        assert (Hu : unheard (Some e) s1 = None)
          by (unfold unheard; by rewrite bool_decide_true).
        split; [by unfold pull_callback_outcome; rewrite Hu|].
        by apply emitted_messages_poll_callback.
      * intros e' [= <-] Hin.
        assert (Hu : unheard (Some e) s1 = Some e)
          by (unfold unheard; by rewrite bool_decide_false).
        unfold pull_callback_outcome, pull_callback_effects.
        by rewrite Hu.
    + rewrite on_ack_done_success. eexists _, _.
      split; [by rewrite pull_callback_outcome_success|].
      split; [unfold resume_effects; destruct (_ && _); [by right|by left]|].
      split; [|done]. intros _. split; [done|].
      rewrite emitted_messages_app, emitted_messages_resume.
      by apply emitted_messages_poll_callback.
Qed.

Lemma autoAck_emits_on_ack_completion_witness :
  ∃ effs,
    on_pull_done startPulling_callback None (delivery ["a1"; "a2"])
      (on_state "message" (new_Subscription autoAcking)) =
      (Return tt,
       refreshed (tracked (received (delivery ["a1"; "a2"]))
                    (on_state "message" (new_Subscription autoAcking))),
       effs) ∧
    emitted_messages effs = [] ∧
    acknowledge_requests effs = [["a1"; "a2"]].
Proof.
  destruct (autoAck_emits_on_ack_completion startPulling_callback
              (delivery ["a1"; "a2"])
              (on_state "message" (new_Subscription autoAcking)) eq_refl)
    as (effs & H1 & H2 & H3 & _); [discriminate|].
  exists effs. split; [exact H1|]. split; [exact H2|exact H3].
Defined.

(** C2, as stated, fails.  The only ['message'] listener is removed while
    the pull of the poll loop is in flight, which sets [closed]; the pull
    then completes with one message: its ackId is added to
    [inProgressAckIds] and [emit('message', ...)] is called for it. *)
Lemma closed_pull_is_still_tracked :
  ∃ w2 w3,
    run [On "message"; RemoveListener "message"] (boot defaults) = Some w2 ∧
    closed (sub w2) = true ∧
    map fst (pending w2) = [ReqPull false (Num 1000)] ∧
    step (Respond 0 None (delivery ["a1"])) w2 = Some w3 ∧
    closed (sub w3) = true ∧
    inProgressAckIds (sub w3) !! "a1" = Some true ∧
    inProgress (sub w3) = 1 ∧
    map ackId (emitted_messages (trace w3)) = ["a1"].
Proof.
  eexists _, _. split; [vm_compute; reflexivity|].
  split; [reflexivity|]. split; [reflexivity|].
  split; [vm_compute; reflexivity|].
  split; [reflexivity|]. split; [reflexivity|]. split; reflexivity.
Qed.

(** C2, amended.  On a closed subscription [startPulling_] sends nothing
    and changes nothing.  A pull of the poll loop that completes while
    [closed] is set leaves it set and starts no new pull, but its messages
    are handled as on an open subscription: every received ackId that is
    not ['__proto__'] is added to [inProgressAckIds], and the messages are
    passed to [emit('message')] in the order received.  With [autoAck] on
    and a message received, that happens when the acknowledge request sent
    for them completes, the subscription still closed: after its success,
    or after its failure if an ['error'] listener is registered. *)
Theorem closed_stops_new_pulls_only (resp : ApiResponse) (s : Subscription) :
  closed s = true →
  startPulling_ s = (Return tt, s, []) ∧
  ∃ s' effs,
    on_pull_done startPulling_callback None resp s = (Return tt, s', effs) ∧
    closed s' = true ∧
    poll_requests effs = [] ∧
    (∀ m, m ∈ received resp → ackId m ≠ "__proto__" →
       inProgressAckIds s' !! ackId m = Some true) ∧
    (autoAck s = false ∨ received resp = [] →
       emitted_messages effs = received resp) ∧
    (autoAck s = true → received resp ≠ [] →
       let h := ack_done (map ackId (received resp))
                  (autoAck_callback startPulling_callback (received resp)
                     resp) in
       effs = [Requested (ReqAcknowledge (map ackId (received resp))) h] ∧
       ∀ err ackResp s1,
         closed s1 = true →
         err = None ∨ "error" ∈ listeners s1 →
         ∃ s2 effs2,
           handle h err ackResp s1 = (Return tt, s2, effs2) ∧
           closed s2 = true ∧
           poll_requests effs2 = [] ∧
           emitted_messages effs2 = received resp).
Proof.
  intros Hc. split.
  - rewrite startPulling__run, Hc. done.
  - rewrite on_pull_done_success. cbn zeta. eexists _, _. split; [done|].
    rewrite resume_effects_closed by done. rewrite app_nil_l.
    split; [done|]. split; [|split; [|split]].
    + apply quiet_poll_requests.
      destruct (_ && _); [by repeat constructor|apply quiet_pull_callback].
    + intros m Hm Hproto.
      cbn [refreshed tracked set_paused set_inProgressAckIds inProgressAckIds].
      rewrite track_lookup, bool_decide_true; [done|].
      split; [|done]. apply list_elem_of_fmap. by exists m.
    + intros [->|Hr].
      * by apply emitted_messages_poll_callback.
      * rewrite Hr. destruct (autoAck s);
          by apply emitted_messages_poll_callback.
    + intros -> Hne. cbn zeta.
      assert (Hl : negb (bool_decide (length (received resp) = 0%nat)) = true)
        by by destruct (received resp).
      rewrite Hl. cbn [andb]. split; [done|].
      intros err ackResp s1 Hc1 Hheard. cbn [handle].
      assert (Hu : unheard err s1 = None).
      { destruct err as [e|]; [|done]. destruct Hheard as [?|Hin]; [done|].
        unfold unheard. by rewrite bool_decide_true. }
      destruct err as [e|].
      * rewrite on_ack_done_error. exists s1. eexists. split.
        { unfold ack_callback_outcome, pull_callback_outcome.
          by rewrite Hu. }
        split; [done|]. split.
        -- apply quiet_poll_requests, quiet_ack_callback.
        -- by apply emitted_messages_poll_callback.
      * rewrite on_ack_done_success. eexists _, _. split; [done|].
        rewrite resume_effects_closed by done. rewrite app_nil_l.
        split; [done|]. split.
        -- apply quiet_poll_requests, quiet_ack_callback.
        -- by apply emitted_messages_poll_callback.
Qed.

Lemma closed_stops_new_pulls_only_witness :
  startPulling_ (sub closing_world) = (Return tt, sub closing_world, []) ∧
  ∃ s' effs,
    on_pull_done startPulling_callback None (delivery ["a1"])
      (sub closing_world) = (Return tt, s', effs) ∧
    closed s' = true ∧
    inProgressAckIds s' !! "a1" = Some true ∧
    map ackId (emitted_messages effs) = ["a1"].
Proof.
  destruct (closed_stops_new_pulls_only (delivery ["a1"]) (sub closing_world)
              eq_refl)
    as (H0 & s' & effs & H1 & H2 & _ & H3 & H4 & _).
  split; [exact H0|].
  exists s', effs. split; [exact H1|]. split; [exact H2|]. split.
  - apply (H3 {| ackId := "a1"; id := None; data := None; attributes := None |}).
    + vm_compute. left.
    + discriminate.
  - rewrite (H4 (or_introl eq_refl)). reflexivity.
Defined.

(** C3. In every reachable world: with [maxInProgress] unbounded the
    subscription is not paused; and when it is paused and has a message
    listener, a [skip], or the success of an acknowledge request, that brings
    the number of ackIds in progress below [maxInProgress] clears [paused]
    and sends the next pull request in that same run, not through the
    timer. *)
Theorem resume_on_ack_or_skip (options : Options) (w : World) :
  reachable options w →
  (maxInProgress (sub w) = Infinity → paused (sub w) = false) ∧
  (paused (sub w) = true → 0 < messageListeners (sub w) →
     (∀ a,
        js_lt (inProgress (untracked [a] (sub w))) (maxInProgress (sub w)) = true →
        skip a (sub w) =
          (Return tt, set_paused false (untracked [a] (sub w)),
           [poll_request (untracked [a] (sub w))])) ∧
     (∀ ackIds c resp,
        js_lt (inProgress (untracked ackIds (sub w))) (maxInProgress (sub w))
          = true →
        on_ack_done ackIds c None resp (sub w) =
          (Return tt, set_paused false (untracked ackIds (sub w)),
           poll_request (untracked ackIds (sub w))
             :: ack_callback_effects c None resp
                  (set_paused false (untracked ackIds (sub w)))))).
Proof.
  intros Hr. apply reachable_Inv in Hr as [HI _]. split.
  - destruct HI as [_ _ Hp]. intros Hm.
    destruct (paused (sub w)); [by destruct Hp|done].
  - intros Hp Hl. split.
    + intros a Hlt. rewrite skip_run.
      destruct (resume_effects_resuming (untracked [a] (sub w))) as [-> ->];
        [by apply Inv_inProgress|done..].
    + intros ackIds c resp Hlt. rewrite on_ack_done_success.
      destruct (resume_effects_resuming (untracked ackIds (sub w)))
        as [-> ->]; [by apply Inv_inProgress|done..].
Qed.

Lemma resume_on_ack_or_skip_witness :
  paused (sub paused_world) = true ∧
  messageListeners (sub paused_world) = 1 ∧
  skip "a1" (sub paused_world) =
    (Return tt, set_paused false (untracked ["a1"] (sub paused_world)),
     [Requested (ReqPull false (Num 1)) (pull_done startPulling_callback)]).
Proof.
  split; [reflexivity|]. split; [reflexivity|].
  refine (eq_trans
            (proj1 (proj2 (resume_on_ack_or_skip one_at_a_time paused_world _)
                      eq_refl eq_refl) "a1" eq_refl) _).
  - apply (reachable_run _ [On "message"; Respond 0 None (delivery ["a1"])]
             (boot one_at_a_time)); [apply reachable_boot|].
    vm_compute. reflexivity.
  - vm_compute. reflexivity.
Defined.

(** C4. Every pull request the poll loop sends asks for [maxInProgress]
    minus the number of keys of [inProgressAckIds] at the time it is sent
    when [maxInProgress < Infinity], and for 1000 otherwise (for
    [Infinity], and for NaN).  The difference is the subtraction of doubles:
    it is the integer difference whenever that is a safe integer, and for a
    fractional [maxInProgress] the exact difference whenever that fits 53
    bits.  First for [startPulling_] itself, then for any input handled in
    any world: the requests of the poll loop among the effects of the step
    carry that value, computed on the object the step leaves. *)
Theorem poll_request_maxMessages :
  (∀ s,
     startPulling_ s =
       (Return tt, s,
        if closed s || paused s then []
        else [Requested
                (ReqPull false
                   match maxInProgress s with
                   | Infinity | NaN => Num 1000
                   | bound =>
                       js_minus bound (Z.of_nat (size (inProgressAckIds s)))
                   end)
                (pull_done startPulling_callback)])) ∧
  (∀ n c, - 2 ^ 53 < n - c < 2 ^ 53 → js_minus (Num n) c = Num (n - c)) ∧
  (∀ m k c,
     0 < c → Z.pos k ≤ 1074 → - 2 ^ 53 < m - c * 2 ^ Z.pos k < 2 ^ 53 →
     js_minus (Frac m k) c = dyadic (m - c * 2 ^ Z.pos k) (- Z.pos k)) ∧
  (∀ i w w' ri mm,
     step i w = Some w' →
     Requested (ReqPull ri mm) (pull_done startPulling_callback)
       ∈ drop (length (trace w)) (trace w') →
     ri = false ∧
     mm = match maxInProgress (sub w') with
          | Infinity | NaN => Num 1000
          | bound =>
              js_minus bound (Z.of_nat (size (inProgressAckIds (sub w'))))
          end).
Proof.
  assert (Hmm : ∀ s,
            poll_maxMessages s =
              match maxInProgress s with
              | Infinity | NaN => Num 1000
              | bound => js_minus bound (Z.of_nat (size (inProgressAckIds s)))
              end).
  { intros s. unfold poll_maxMessages, inProgress.
    by destruct (maxInProgress s). }
  split; [|split; [|split]].
  - intros s. rewrite startPulling__run. unfold poll_request.
    by rewrite Hmm.
  - apply js_minus_safe.
  - apply js_minus_Frac_exact.
  - intros i w w' ri mm Hstep Hin.
    apply step_inv in Hstep as (p & t & m & o & effs & _ & _ & Hok & _ & _ & Ht).
    rewrite Ht, drop_app_length in Hin.
    apply elem_of_app in Hin as [Hin|Hin].
    + destruct Hok as [_ _ _ _ Hpolls _].
      rewrite Forall_forall in Hpolls.
      specialize (Hpolls _ Hin eq_refl).
      unfold poll_request in Hpolls. rewrite Hmm in Hpolls.
      by injection Hpolls as -> ->.
    + destruct o; simpl in Hin.
      * by apply elem_of_nil in Hin.
      * apply list_elem_of_singleton in Hin. discriminate.
Qed.

Lemma poll_request_maxMessages_witness :
  (∃ w w',
     run [On "message"; Respond 0 None (delivery ["a1"; "a2"])]
       (boot {| opt_autoAck := None; opt_interval := None;
                opt_maxInProgress := Some (Num 5) |}) = Some w ∧
     size (inProgressAckIds (sub w)) = 2%nat ∧
     step (Tick 0) w = Some w' ∧
     drop (length (trace w)) (trace w')
     = [Requested (ReqPull false (Num 3)) (pull_done startPulling_callback)]) ∧
  js_minus (Num 5) 2 = Num 3 ∧
  js_minus (Frac 3 1) 1 = Frac 1 1 ∧
  js_minus (Num 9007199254740994) 1 = Num 9007199254740992.
Proof.
  split; [|split; [|split]].
  - set (w := default (boot defaults)
                (run [On "message"; Respond 0 None (delivery ["a1"; "a2"])]
                   (boot {| opt_autoAck := None; opt_interval := None;
                            opt_maxInProgress := Some (Num 5) |}))).
    set (w' := default w (step (Tick 0) w)).
    assert (Hstep : step (Tick 0) w = Some w') by (vm_compute; reflexivity).
    exists w, w'. split; [vm_compute; reflexivity|].
    split; [vm_compute; reflexivity|]. split; [exact Hstep|].
    pose proof (proj2 (proj2 (proj2 poll_request_maxMessages)) (Tick 0) w w'
                  false (Num 3) Hstep) as H.
    assert (Hin : Requested (ReqPull false (Num 3))
                    (pull_done startPulling_callback)
                  ∈ drop (length (trace w)) (trace w'))
      by (vm_compute; left).
    destruct (H Hin) as [_ Hmm]. vm_compute. reflexivity.
  - apply (proj1 (proj2 poll_request_maxMessages) 5 2). lia.
  - refine (eq_trans
              (proj1 (proj2 (proj2 poll_request_maxMessages)) 3 1%positive 1
                 _ _ _) _); [lia|lia|lia|reflexivity].
  - vm_compute. reflexivity.
Defined.

(** C5, as stated, fails.  A subscription is deleted; the success of the
    request has [removeAllListeners] take away the two handlers of
    [listenForEvents_].  The first ['message'] listener registered on it
    afterwards is added to the emitter, but [closed] stays set and no pull
    request is sent. *)
Lemma deleted_subscription_stays_closed :
  ∃ w w',
    run [Delete None; Respond 0 None {| receivedMessages := None |}]
      (boot defaults) = Some w ∧
    closed (sub w) = true ∧
    listeners (sub w) = [] ∧
    step (On "message") w = Some w' ∧
    listeners (sub w') = ["message"] ∧
    closed (sub w') = true ∧
    pending w' = [] ∧ timers w' = [] ∧
    poll_requests (trace w') = [].
Proof.
  eexists _, _. split; [vm_compute; reflexivity|].
  split; [reflexivity|]. split; [reflexivity|].
  split; [vm_compute; reflexivity|].
  repeat split; reflexivity.
Qed.

(** C5, amended.  While the handlers of [listenForEvents_] are registered
    (the subscription has not been deleted), registering a ['message']
    listener on a closed subscription counts the listener, clears [closed]
    and calls [startPulling_] once: one pull request goes out (none if the
    subscription is paused, when the cycle it starts does nothing).  Once
    they are gone, registering a listener changes nothing but the emitter.
    In every reachable world, removing the last ['message'] listener leaves
    [closed] set.  And from a world whose subscription is closed, as long
    as no ['message'] listener is registered again, whatever happens
    (responses to the requests in flight, timers firing, acks, skips) leaves
    it closed and adds no pull request of the poll loop. *)
Theorem listeners_open_and_close :
  (∀ w, hooks (sub w) = true → closed (sub w) = true →
     on "message" (sub w) =
       (_ <- modify (λ s, set_closed false
                            (set_messageListeners (messageListeners s + 1) s)) ;;
        _ <- startPulling_ ;;
        modify (λ s, set_listeners (listeners s ++ ["message"]) s)) (sub w) ∧
     ∃ w',
       step (On "message") w = Some w' ∧
       closed (sub w') = false ∧
       messageListeners (sub w') = messageListeners (sub w) + 1 ∧
       listeners (sub w') = listeners (sub w) ++ ["message"] ∧
       trace w' =
         trace w ++ (if paused (sub w) then [] else [poll_request (sub w)]) ∧
       pending w' =
         pending w ++
           (if paused (sub w) then []
            else [(ReqPull false (poll_maxMessages (sub w)),
                   pull_done startPulling_callback)]) ∧
       timers w' = timers w) ∧
  (∀ w, hooks (sub w) = false →
     ∃ w',
       step (On "message") w = Some w' ∧
       sub w' = set_listeners (listeners (sub w) ++ ["message"]) (sub w) ∧
       trace w' = trace w ∧ pending w' = pending w ∧ timers w' = timers w) ∧
  (∀ options w,
     reachable options w →
     message_count (listeners (sub w)) = 1%nat →
     ∃ w',
       step (RemoveListener "message") w = Some w' ∧
       closed (sub w') = true ∧
       message_count (listeners (sub w')) = 0%nat ∧
       trace w' = trace w ∧ pending w' = pending w ∧ timers w' = timers w) ∧
  (∀ inputs w w',
     closed (sub w) = true →
     Forall (λ i, i ≠ On "message") inputs →
     run inputs w = Some w' →
     closed (sub w') = true ∧
     poll_requests (trace w') = poll_requests (trace w)).
Proof.
  split; [|split; [|split]].
  - intros w Hh Hc. split.
    + unfold on, on_newListener, bind, get, modify. rewrite Hh.
      rewrite bool_decide_true by done. simpl. rewrite Hc. simpl.
      by destruct (startPulling_ _) as [[[] ?] ?].
    + rewrite step_On. eexists. split; [done|].
      unfold on_state, on_effects, newListener_state, newListener_effects.
      rewrite Hh, Hc. rewrite bool_decide_true by done. cbn.
      destruct (paused (sub w)); cbn; by rewrite ?app_nil_r.
  - intros w Hh. rewrite step_On. eexists. split; [done|].
    unfold on_state, on_effects. rewrite Hh. cbn.
    by rewrite !app_nil_r.
  - intros options w Hr Hcount.
    apply reachable_Inv in Hr as [[Hc Hn _] _].
    rewrite step_RemoveListener. eexists. split; [done|]. cbn.
    rewrite !app_nil_r.
    destruct (removeListener_state_frame "message" (sub w))
      as (_ & _ & _ & _ & _ & _ & Hcount' & _).
    cbn zeta in Hcount'. rewrite bool_decide_true in Hcount' by done.
    rewrite Hcount in Hcount'.
    split; [|by split].
    assert (Hin : "message" ∈ listeners (sub w)).
    { unfold message_count in Hcount.
      destruct (filter (λ x, x = "message") (listeners (sub w)))
        as [|x l] eqn:E; [done|].
      assert (Hx : x ∈ filter (λ x, x = "message") (listeners (sub w)))
        by (rewrite E; left).
      by apply list_elem_of_filter in Hx as [-> Hx]. }
    unfold counted in Hn.
    unfold removeListener_state, removeListener_hook_state.
    rewrite bool_decide_true by done.
    destruct (hooks (sub w)) eqn:Hh; cbn.
    + rewrite Hn, Hcount. by cbn.
    + rewrite Hc, Hn. done.
  - induction inputs as [|i l IH]; intros w w' Hc Hall; simpl.
    + by intros [= <-].
    + destruct (step i w) as [w1|] eqn:E; [|done]. intros Hrun.
      apply Forall_cons in Hall as [Hi Hall].
      destruct (closed_step_quiet _ _ _ Hc Hi E) as [Hc1 <-].
      by apply IH.
Qed.

Lemma listeners_open_and_close_witness :
  (∃ w',
     step (On "message") (boot defaults) = Some w' ∧
     closed (sub w') = false ∧
     pending w' = [(ReqPull false (Num 1000), pull_done startPulling_callback)]) ∧
  (∃ w',
     step (RemoveListener "message")
       (default (boot defaults) (step (On "message") (boot defaults)))
     = Some w' ∧
     closed (sub w') = true) ∧
  closed (sub closing_world) = true ∧
  pending closing_world =
    [(ReqPull false (Num 1000), pull_done startPulling_callback)] ∧
  ∃ w',
    run [Respond 0 None (delivery ["a1"; "a2"]); Tick 0; Skip "a1"]
      closing_world = Some w' ∧
    poll_requests (trace w') = poll_requests (trace closing_world) ∧
    pending w' = [] ∧ timers w' = [].
Proof.
  split; [|split; [|split; [|split]]].
  - destruct (proj1 listeners_open_and_close (boot defaults) eq_refl eq_refl)
      as (_ & w' & H1 & H2 & _ & _ & _ & H3 & _).
    exists w'. split; [exact H1|]. split; [exact H2|exact H3].
  - destruct (proj1 (proj2 (proj2 listeners_open_and_close)) defaults
                (default (boot defaults) (step (On "message") (boot defaults))))
      as (w' & H1 & H2 & _).
    + apply (reachable_run _ [On "message"] (boot defaults));
        [apply reachable_boot|reflexivity].
    + reflexivity.
    + exists w'. split; [exact H1|exact H2].
  - reflexivity.
  - reflexivity.
  - eexists. split; [vm_compute; reflexivity|].
    split; [|split; reflexivity].
    refine (proj2 (proj2 (proj2 (proj2 listeners_open_and_close))
                     [Respond 0 None (delivery ["a1"; "a2"]); Tick 0; Skip "a1"]
                     closing_world _ eq_refl _ _)).
    + repeat constructor; discriminate.
    + vm_compute. reflexivity.
Defined.

(** C6. For a non-empty list of ackIds [ack] sends one acknowledge request;
    when that request fails, its handler does nothing but pass the error to
    the callback given to [ack]: the whole object is left as the handler
    finds it (every ackId that is tracked stays tracked) and no request is
    sent, so nothing is retried.  A callback of the consumer is called
    with the error and the handler returns; the callback [pull] passes when
    [autoAck] is on hands the error to the callback of the pull. *)
Theorem ack_failure_changes_nothing (ackIds : AckIdsArg)
    (callback : option AckCallback) (e : Error) (resp : ApiResponse)
    (s s1 : Subscription) :
  arrify_ackIds ackIds ≠ [] →
  let h := ack_done (arrify_ackIds ackIds) (default (plain noop) callback) in
  ack ackIds callback s =
    (Return tt, s, [Requested (ReqAcknowledge (arrify_ackIds ackIds)) h]) ∧
  handle h (Some e) resp s1 =
    (ack_callback_outcome (default (plain noop) callback) (Some e) s1, s1,
     ack_callback_effects (default (plain noop) callback) (Some e) resp s1) ∧
  requests_of
    (ack_callback_effects (default (plain noop) callback) (Some e) resp s1) = [] ∧
  (∀ c, default (plain noop) callback = plain c →
     handle h (Some e) resp s1 =
       (Return tt, s1, callback_effects c (Some e) resp)) ∧
  (∀ c ms r, default (plain noop) callback = autoAck_callback c ms r →
     handle h (Some e) resp s1 = call_pull c (Some e) (Some ms) r s1).
Proof.
  intros Hne h. split; [|split; [|split; [|split]]].
  - rewrite ack_run. by destruct (arrify_ackIds ackIds).
  - apply on_ack_done_error.
  - apply requests_of_ack_callback.
  - intros c Hc. unfold h. rewrite Hc. cbn [handle].
    rewrite on_ack_done_error. by destruct c.
  - intros c ms r Hc. unfold h. rewrite Hc. cbn [handle].
    by rewrite on_ack_done_error, call_pull_run.
Qed.

Lemma ack_failure_changes_nothing_witness :
  ack (IdArray ["a1"; "a2"]) (Some (plain (consumer 7)))
      (tracked [{| ackId := "a1"; id := None; data := None; attributes := None |};
                {| ackId := "a2"; id := None; data := None; attributes := None |}]
         (new_Subscription {| opt_autoAck := None; opt_interval := None;
                              opt_maxInProgress := None |}))
  = (Return tt,
     tracked [{| ackId := "a1"; id := None; data := None; attributes := None |};
              {| ackId := "a2"; id := None; data := None; attributes := None |}]
       (new_Subscription {| opt_autoAck := None; opt_interval := None;
                            opt_maxInProgress := None |}),
     [Requested (ReqAcknowledge ["a1"; "a2"])
        (ack_done ["a1"; "a2"] (plain (consumer 7)))])
  ∧ handle (ack_done ["a1"; "a2"] (plain (consumer 7))) (Some "ECONNRESET")
      {| receivedMessages := None |}
      (tracked [{| ackId := "a1"; id := None; data := None; attributes := None |};
                {| ackId := "a2"; id := None; data := None; attributes := None |}]
         (new_Subscription {| opt_autoAck := None; opt_interval := None;
                              opt_maxInProgress := None |}))
  = (Return tt,
     tracked [{| ackId := "a1"; id := None; data := None; attributes := None |};
              {| ackId := "a2"; id := None; data := None; attributes := None |}]
       (new_Subscription {| opt_autoAck := None; opt_interval := None;
                            opt_maxInProgress := None |}),
     [Called 7 (Some "ECONNRESET") None {| receivedMessages := None |}]).
Proof.
  pose proof (ack_failure_changes_nothing (IdArray ["a1"; "a2"])
                (Some (plain (consumer 7))) "ECONNRESET"
                {| receivedMessages := None |}
                (tracked [{| ackId := "a1"; id := None; data := None;
                             attributes := None |};
                          {| ackId := "a2"; id := None; data := None;
                             attributes := None |}]
                   (new_Subscription {| opt_autoAck := None;
                                        opt_interval := None;
                                        opt_maxInProgress := None |}))
                (tracked [{| ackId := "a1"; id := None; data := None;
                             attributes := None |};
                          {| ackId := "a2"; id := None; data := None;
                             attributes := None |}]
                   (new_Subscription {| opt_autoAck := None;
                                        opt_interval := None;
                                        opt_maxInProgress := None |})))
    as H.
  destruct H as (H1 & H2 & _); [discriminate|].
  split; [exact H1|exact H2].
Defined.

(** C7. [ack] throws synchronously exactly when the list of ackIds (after
    [arrify]) is empty, and then no request has been sent and the object is
    untouched; for every non-empty list it returns normally, having sent the
    acknowledge request. *)
Theorem ack_throws_iff_empty (ackIds : AckIdsArg)
    (callback : option AckCallback) (s : Subscription) :
  (arrify_ackIds ackIds = [] →
     ack ackIds callback s =
       (Throw "At least one ID must be specified before it can be acknowledged.",
        s, [])) ∧
  (arrify_ackIds ackIds ≠ [] →
     ack ackIds callback s =
       (Return tt, s,
        [Requested (ReqAcknowledge (arrify_ackIds ackIds))
           (ack_done (arrify_ackIds ackIds) (default (plain noop) callback))])).
Proof.
  rewrite ack_run. split.
  - by intros ->.
  - by destruct (arrify_ackIds ackIds).
Qed.

Lemma ack_throws_iff_empty_witness :
  ack (IdArray []) None (new_Subscription
                           {| opt_autoAck := None; opt_interval := None;
                              opt_maxInProgress := None |})
  = (Throw "At least one ID must be specified before it can be acknowledged.",
     new_Subscription {| opt_autoAck := None; opt_interval := None;
                         opt_maxInProgress := None |}, [])
  ∧ ack (OneId "a1") None (new_Subscription
                            {| opt_autoAck := None; opt_interval := None;
                               opt_maxInProgress := None |})
  = (Return tt,
     new_Subscription {| opt_autoAck := None; opt_interval := None;
                         opt_maxInProgress := None |},
     [Requested (ReqAcknowledge ["a1"]) (ack_done ["a1"] (plain noop))]).
Proof.
  split.
  - apply (proj1 (ack_throws_iff_empty (IdArray []) None _)). reflexivity.
  - apply (proj2 (ack_throws_iff_empty (OneId "a1") None _)). discriminate.
Defined.




(** C9 fails at the ackId ['__proto__'].  [decorateMessage_] is meant to
    record every message it decorates as in progress, by assigning
    [inProgressAckIds[ackId] = true]; for this one key the assignment
    stores nothing.  The message is tracked once and not resolved, yet the
    count is 0; delivered to a subscription that takes one message at a
    time, it is emitted and the subscription is not paused. *)
Theorem proto_ackId_is_not_counted :
  (∃ s',
     forEach run_op [track_op proto_message] (new_Subscription one_at_a_time)
     = (Return tt, s', []) ∧
     outstanding [track_op proto_message] = ["__proto__"] ∧
     inProgressAckIds s' !! "__proto__" = None ∧
     inProgress s' = 0) ∧
  (∃ w,
     run [On "message"; Respond 0 None (delivery ["__proto__"])]
       (boot one_at_a_time) = Some w ∧
     map ackId (emitted_messages (trace w)) = ["__proto__"] ∧
     inProgress (sub w) = 0 ∧
     paused (sub w) = false) ∧
  (∃ w,
     run [On "message"; Respond 0 None (delivery ["a1"])]
       (boot one_at_a_time) = Some w ∧
     map ackId (emitted_messages (trace w)) = ["a1"] ∧
     inProgress (sub w) = 1 ∧
     paused (sub w) = true).
Proof.
  split; [|split].
  - eexists. split; [vm_compute; reflexivity|]. repeat split; reflexivity.
  - eexists. split; [vm_compute; reflexivity|]. repeat split; reflexivity.
  - eexists. split; [vm_compute; reflexivity|]. repeat split; reflexivity.
Qed.

(** C10. With [autoAck] on, a pull whose response holds no message calls
    the callback with the empty list and sends no acknowledge request; and
    whatever the response, every acknowledge request the handler of a pull
    sends has a non-empty list, and the only exception it can end with is
    the error of a failed pull that [emit('error')] throws for the poll
    loop: the error [ack] throws for an empty list cannot arise on this
    path. *)
Theorem autoAck_skips_empty_pull (c : PullCallback) (resp : ApiResponse)
    (s : Subscription) :
  autoAck s = true →
  (received resp = [] →
     on_pull_done c None resp s =
       (Return tt, refreshed s,
        resume_effects s
          ++ pull_callback_effects c None (Some []) resp (refreshed s)) ∧
     acknowledge_requests
       (resume_effects s
          ++ pull_callback_effects c None (Some []) resp (refreshed s)) = []) ∧
  (∀ err, ∃ o s' effs,
     on_pull_done c err resp s = (o, s', effs) ∧
     Forall (λ l, l ≠ []) (acknowledge_requests effs) ∧
     (err = None → o = Return tt) ∧
     (∀ x, o = Throw x →
        err = Some x ∧ c = startPulling_callback ∧ "error" ∉ listeners s)).
Proof.
  intros Ha. split.
  - intros Hr. rewrite on_pull_done_success, Hr, Ha. simpl.
    rewrite tracked_nil. split; [done|].
    rewrite acknowledge_requests_app, acknowledge_requests_resume.
    unfold acknowledge_requests. by rewrite requests_of_pull_callback.
  - intros [e|].
    + rewrite on_pull_done_error. eexists _, _, _. split; [done|].
      split; [|split; [done|]].
      * unfold acknowledge_requests. rewrite requests_of_pull_callback.
        constructor.
      * intros x. destruct c as [|k]; [|done].
        unfold pull_callback_outcome, unheard.
        case_bool_decide; [done|]. by intros [= ->].
    + rewrite on_pull_done_success, Ha. eexists _, _, _. split; [done|].
      split; [|done].
      cbn zeta. rewrite acknowledge_requests_app, acknowledge_requests_resume.
      destruct (received resp) as [|m ms]; simpl.
      * unfold acknowledge_requests. rewrite requests_of_pull_callback.
        constructor.
      * by repeat constructor.
Qed.

Lemma autoAck_skips_empty_pull_witness :
  on_pull_done startPulling_callback None {| receivedMessages := None |}
    (new_Subscription {| opt_autoAck := Some true; opt_interval := None;
                         opt_maxInProgress := None |})
  = (Return tt,
     new_Subscription {| opt_autoAck := Some true; opt_interval := None;
                         opt_maxInProgress := None |},
     [SetTimeout 10]).
Proof.
  refine (eq_trans
            (proj1 (proj1 (autoAck_skips_empty_pull startPulling_callback
                              {| receivedMessages := None |}
                              (new_Subscription
                                 {| opt_autoAck := Some true;
                                    opt_interval := None;
                                    opt_maxInProgress := None |})
                              eq_refl) eq_refl)) _).
  reflexivity.
Defined.

(** * Names and endpoints: the strings *)

Lemma append_assoc (a b c : string) : (a +:+ b) +:+ c = a +:+ (b +:+ c).
Proof.
  induction a as [|x a IH]; [done|].
  change (String x ((a +:+ b) +:+ c) = String x (a +:+ (b +:+ c))).
  by rewrite IH.
Qed.

Lemma prefix_String a p s :
  String.prefix (String a p) s = true →
  ∃ r, s = String a r ∧ String.prefix p r = true.
Proof.
  destruct s as [|b r]; simpl; [done|].
  destruct (ascii_dec a b) as [->|]; [|done]. eauto.
Qed.

Lemma indexOf_cons needle c r :
  indexOf needle (String c r) =
    if String.prefix needle (String c r) then 0
    else if indexOf needle r =? -1 then -1 else indexOf needle r + 1.
Proof. done. Qed.

Lemma indexOf_ge needle s : -1 ≤ indexOf needle s.
Proof.
  induction s as [|c r IH].
  - destruct needle; simpl; lia.
  - rewrite indexOf_cons.
    destruct (String.prefix needle (String c r)); [lia|].
    destruct (indexOf needle r =? -1); lia.
Qed.

Lemma indexOf_0 needle s :
  indexOf needle s = 0 ↔ String.prefix needle s = true.
Proof.
  destruct s as [|c r].
  - destruct needle; simpl; [done|]. split; [lia|done].
  - rewrite indexOf_cons.
    destruct (String.prefix needle (String c r)); [done|].
    pose proof (indexOf_ge needle r).
    destruct (indexOf needle r =? -1) eqn:E; split; try done; lia.
Qed.

Lemma indexOf_slash_cons c r :
  indexOf "/" (String c r) =
    if bool_decide (c = "/"%char) then 0
    else if indexOf "/" r =? -1 then -1 else indexOf "/" r + 1.
Proof.
  rewrite indexOf_cons.
  change (String.prefix "/" (String c r))
    with (if ascii_dec "/" c then String.prefix "" r else false).
  destruct (ascii_dec "/" c) as [<-|Hne].
  - rewrite bool_decide_true by done. by destruct r.
  - by rewrite bool_decide_false by congruence.
Qed.

Lemma indexOf_slash_app a r : -1 < indexOf "/" (a +:+ String "/" r).
Proof.
  induction a as [|c a IH].
  - change (-1 < indexOf "/" (String "/" r)).
    rewrite indexOf_slash_cons, bool_decide_true by done. lia.
  - change (-1 < indexOf "/" (String c (a +:+ String "/" r))).
    rewrite indexOf_slash_cons. case_bool_decide; [lia|].
    destruct (_ =? -1) eqn:E; [apply Z.eqb_eq in E|]; lia.
Qed.

Lemma split_slash_nonempty s : split_slash s ≠ [].
Proof.
  destruct s as [|c r]; simpl; [done|].
  case_bool_decide; [done|]. by destruct (split_slash r).
Qed.

Lemma split_slash_none s : indexOf "/" s = -1 → split_slash s = [s].
Proof.
  induction s as [|c r IH]; [done|].
  rewrite indexOf_slash_cons. simpl.
  case_bool_decide; [done|].
  destruct (indexOf "/" r =? -1) eqn:E.
  - apply Z.eqb_eq in E. by rewrite (IH E).
  - pose proof (indexOf_ge "/" r). lia.
Qed.

Lemma split_slash_segments s :
  Forall (λ x, indexOf "/" x = -1) (split_slash s).
Proof.
  induction s as [|c r IH]; simpl.
  - by repeat constructor.
  - case_bool_decide as Hc; [by constructor|].
    destruct (split_slash r) as [|x xs] eqn:E;
      [by apply split_slash_nonempty in E|].
    apply Forall_cons in IH as [Hx Hxs]. constructor; [|done].
    by rewrite indexOf_slash_cons, bool_decide_false, Hx.
Qed.

Lemma last_cons_nonempty {A} (x d : A) l :
  l ≠ [] → List.last (x :: l) d = List.last l d.
Proof. by destruct l. Qed.

Lemma last_split_slash_app a n :
  (2 ≤ length (split_slash (a +:+ String "/" n)))%nat ∧
  List.last (split_slash (a +:+ String "/" n)) EmptyString
  = List.last (split_slash n) EmptyString.
Proof.
  induction a as [|c a [IHl IH]].
  - change (EmptyString +:+ String "/" n) with (String "/" n). simpl.
    pose proof (split_slash_nonempty n).
    destruct (split_slash n); [done|]. split; [simpl; lia|done].
  - change (String c a +:+ String "/" n)
      with (String c (a +:+ String "/" n)).
    simpl. case_bool_decide.
    + split; [simpl; lia|].
      rewrite last_cons_nonempty; [done|]. apply split_slash_nonempty.
    + destruct (split_slash (a +:+ String "/" n)) as [|x [|y xs]];
        simpl in *; [lia|lia|]. split; [lia|done].
Qed.

Lemma strip_cons c r :
  c ≠ "/"%char →
  strip_trailing_slashes (String c r) = String c (strip_trailing_slashes r).
Proof.
  intros Hc. simpl. destruct (strip_trailing_slashes r); [|done].
  by rewrite bool_decide_false.
Qed.

Lemma strip_idem s :
  strip_trailing_slashes (strip_trailing_slashes s) = strip_trailing_slashes s.
Proof.
  induction s as [|c r IH]; [done|]. simpl.
  destruct (strip_trailing_slashes r) as [|x r'] eqn:E.
  - case_bool_decide; [done|]. simpl. by rewrite bool_decide_false.
  - change (strip_trailing_slashes (String c (String x r')) = String c (String x r')).
    cbn [strip_trailing_slashes] in *. by rewrite IH.
Qed.

Lemma strip_no_trailing_slash s p : strip_trailing_slashes s ≠ p +:+ "/".
Proof.
  revert p. induction s as [|c r IH]; intros p; simpl.
  - by destruct p.
  - destruct (strip_trailing_slashes r) as [|x r'] eqn:E.
    + case_bool_decide as Hc; [by destruct p|].
      destruct p as [|y p]; [intros [= ->]; done|].
      change (String c "" ≠ String y (p +:+ "/")). intros [= _ H].
      by destruct p.
    + destruct p as [|y p]; [done|].
      change (String c (String x r') ≠ String y (p +:+ "/")).
      intros [= _ H]. by apply (IH p).
Qed.

Lemma strip_prefix_http s :
  String.prefix "http" s = true →
  String.prefix "http" (strip_trailing_slashes s) = true.
Proof.
  intros H.
  apply prefix_String in H as (r1 & -> & H).
  apply prefix_String in H as (r2 & -> & H).
  apply prefix_String in H as (r3 & -> & H).
  apply prefix_String in H as (r4 & -> & _).
  rewrite !strip_cons by done.
  cbn [String.prefix]. by destruct (strip_trailing_slashes r4).
Qed.

Lemma truthy_Some o e : truthy o = Some e → e ≠ EmptyString ∧ o = Some e.
Proof. destruct o as [[|c r]|]; simpl; [done| |done]. by intros [= <-]. Qed.

Lemma formatName__has_slash projectId name :
  -1 < indexOf "/" (formatName_ projectId name).
Proof.
  unfold formatName_. destruct (-1 <? indexOf "/" name) eqn:E.
  - by apply Z.ltb_lt.
  - change ("projects/" +:+ projectId +:+ "/subscriptions/" +:+ name)
      with ("projects" +:+ String "/" (projectId +:+ "/subscriptions/" +:+ name)).
    apply indexOf_slash_app.
Qed.

Lemma determineApiEndpoint__http env custom :
  String.prefix "http" (apiEndpoint (determineApiEndpoint_ env custom)) = true.
Proof.
  unfold determineApiEndpoint_.
  destruct (match truthy custom with
            | Some e => (e, true)
            | None => match truthy env with
                      | Some e => (e, true)
                      | None => ("https://www.googleapis.com", false)
                      end
            end) as [e c].
  cbn [apiEndpoint]. apply strip_prefix_http.
  destruct (indexOf "http" e =? 0) eqn:E; cbn [negb].
  - by apply indexOf_0, Z.eqb_eq.
  - change ("http://" +:+ e) with (String "h" (String "t" (String "t"
      (String "p" (String ":" (String "/" (String "/" e))))))).
    done.
Qed.

Lemma determineApiEndpoint__stripped env custom :
  strip_trailing_slashes (apiEndpoint (determineApiEndpoint_ env custom))
  = apiEndpoint (determineApiEndpoint_ env custom).
Proof.
  unfold determineApiEndpoint_.
  destruct (match truthy custom with
            | Some e => (e, true)
            | None => match truthy env with
                      | Some e => (e, true)
                      | None => ("https://www.googleapis.com", false)
                      end
            end) as [e c].
  cbn [apiEndpoint]. apply strip_idem.
Qed.

(** * Further properties *)

(** X1. A formatted subscription name always contains a slash, so
    [formatName_] leaves it alone whatever project it is given next:
    formatting twice is formatting once. *)
Theorem formatName__idempotent (projectId projectId' name : string) :
  -1 < indexOf "/" (formatName_ projectId name) ∧
  formatName_ projectId' (formatName_ projectId name)
  = formatName_ projectId name.
Proof.
  pose proof (formatName__has_slash projectId name) as H.
  split; [done|]. unfold formatName_ at 1.
  apply Z.ltb_lt in H. by rewrite H.
Qed.

(** X2. The id the constructor takes from a name, its last segment, is
    the last segment of the formatted name as well, and never contains a
    slash; for a name without a slash it is the name itself. *)
Theorem unformattedName_of_formatName_ (projectId name : string) :
  unformattedName (formatName_ projectId name) = unformattedName name ∧
  indexOf "/" (unformattedName name) = -1 ∧
  (indexOf "/" name = -1 → unformattedName name = name).
Proof.
  split; [|split].
  - unfold formatName_. destruct (-1 <? indexOf "/" name) eqn:E; [done|].
    unfold unformattedName.
    change ("projects/" +:+ projectId +:+ "/subscriptions/" +:+ name)
      with ("projects" +:+ String "/" (projectId +:+ "/subscriptions/" +:+ name)).
    rewrite (proj2 (last_split_slash_app _ _)).
    rewrite <- append_assoc.
    change ((projectId +:+ "/subscriptions/") +:+ name)
      with ((projectId +:+ "/subscriptions/") +:+ name).
    replace (projectId +:+ "/subscriptions/")
      with ((projectId +:+ "/subscriptions") +:+ "/")
      by (by rewrite append_assoc).
    rewrite append_assoc.
    change ("/" +:+ name) with (String "/" name).
    by rewrite (proj2 (last_split_slash_app _ _)).
  - unfold unformattedName.
    pose proof (split_slash_segments name) as H.
    pose proof (split_slash_nonempty name) as Hne.
    induction (split_slash name) as [|x l IH]; [done|].
    apply Forall_cons in H as [Hx Hl].
    destruct l as [|y l]; [done|].
    rewrite last_cons_nonempty by done. by apply IH.
  - intros H. unfold unformattedName. by rewrite split_slash_none.
Qed.

Lemma unformattedName_of_formatName__witness :
  unformattedName (formatName_ "grape-spaceship-123" "my-subscription")
  = "my-subscription".
Proof.
  refine (eq_trans
            (proj1 (unformattedName_of_formatName_ "grape-spaceship-123"
                      "my-subscription")) _).
  apply (proj2 (proj2 (unformattedName_of_formatName_ "grape-spaceship-123"
                         "my-subscription"))).
  reflexivity.
Defined.

(** X3. Whatever endpoint is given or found in the environment, the
    endpoint [determineApiEndpoint_] stores starts with [http] and does not
    end with a slash. *)
Theorem determineApiEndpoint__normalised (env custom : option string) :
  indexOf "http" (apiEndpoint (determineApiEndpoint_ env custom)) = 0 ∧
  ∀ p, apiEndpoint (determineApiEndpoint_ env custom) ≠ p +:+ "/".
Proof.
  split.
  - apply indexOf_0, determineApiEndpoint__http.
  - intros p. unfold determineApiEndpoint_.
    destruct (match truthy custom with
              | Some e => (e, true)
              | None => match truthy env with
                        | Some e => (e, true)
                        | None => ("https://www.googleapis.com", false)
                        end
              end) as [e c].
    cbn [apiEndpoint]. apply strip_no_trailing_slash.
Qed.

(** X4. A stored endpoint is a fixed point: given back as the custom
    endpoint, whatever the environment, it is stored unchanged.  And
    [customEndpoint] is set exactly when an endpoint was given or found in
    the environment, the given one taking precedence; with neither the
    endpoint is [https://www.googleapis.com]. *)
Theorem determineApiEndpoint__stable (env env' custom : option string) :
  determineApiEndpoint_ env'
    (Some (apiEndpoint (determineApiEndpoint_ env custom)))
  = {| apiEndpoint := apiEndpoint (determineApiEndpoint_ env custom);
       customEndpoint := true |} ∧
  (customEndpoint (determineApiEndpoint_ env custom) = false ↔
     truthy custom = None ∧ truthy env = None) ∧
  (truthy custom = None → truthy env = None →
     determineApiEndpoint_ env custom
     = {| apiEndpoint := "https://www.googleapis.com";
          customEndpoint := false |}) ∧
  (∀ e, truthy custom = Some e →
     determineApiEndpoint_ env custom = determineApiEndpoint_ None custom).
Proof.
  split; [|split; [|split]].
  - pose proof (determineApiEndpoint__http env custom) as H.
    pose proof (determineApiEndpoint__stripped env custom) as Hs.
    set (r := apiEndpoint (determineApiEndpoint_ env custom)) in *.
    clearbody r. unfold determineApiEndpoint_.
    assert (truthy (Some r) = Some r) as -> by by destruct r.
    apply indexOf_0, Z.eqb_eq in H. rewrite H. cbn [negb].
    by rewrite Hs.
  - unfold determineApiEndpoint_.
    destruct (truthy custom), (truthy env); cbn [customEndpoint];
      split; try done; by intros [? ?].
  - intros Hc He. unfold determineApiEndpoint_. by rewrite Hc, He.
  - intros e He. unfold determineApiEndpoint_. by rewrite He.
Qed.

Lemma determineApiEndpoint__stable_witness :
  determineApiEndpoint_ (Some "localhost:8080/") None
  = {| apiEndpoint := "http://localhost:8080"; customEndpoint := true |} ∧
  determineApiEndpoint_ None None
  = {| apiEndpoint := "https://www.googleapis.com"; customEndpoint := false |}.
Proof.
  split.
  - refine (eq_trans _
              (proj1 (determineApiEndpoint__stable (Some "localhost:8080/")
                        (Some "localhost:8080/") None))).
    reflexivity.
  - apply (proj1 (proj2 (proj2 (determineApiEndpoint__stable None None None))));
      reflexivity.
Defined.

(** ** The moves behind every input *)

Lemma handle_moves h err resp s :
  ∃ s' effs,
    handle h err resp s = (handler_outcome h err s, s', effs) ∧
    moves s s' effs.
Proof.
  destruct h as [ackIds c|c|c|c]; cbn [handle].
  - destruct err as [e|].
    + rewrite on_ack_done_error. eexists _, _. split.
      * by destruct c as [c|[|k] ms r].
      * apply moves_same, quiet_ack_callback.
    + rewrite on_ack_done_success. eexists _, _. split.
      * by destruct c as [c|[|k] ms r].
      * apply moves_tracker, quiet_ack_callback.
  - destruct err as [e|].
    + rewrite on_pull_done_error. eexists _, _. split.
      * by destruct c as [|k].
      * apply moves_same, quiet_pull_callback.
    + rewrite on_pull_done_success. eexists _, _. split.
      * by destruct c as [|k].
      * apply moves_tracker.
        destruct (_ && _); [by repeat constructor|apply quiet_pull_callback].
  - rewrite call_run. eexists _, _. split; [done|].
    apply moves_same, quiet_callback.
  - rewrite on_delete_done_run. eexists _, _. split; [done|].
    destruct err.
    + apply moves_same, quiet_callback.
    + apply moves_deleted, quiet_callback.
Qed.

Lemma dispatch_moves i w p t m s :
  dispatch i w = Some (p, t, m) →
  ∃ o s' effs, m s = (o, s', effs) ∧ moves s s' effs.
Proof.
  destruct i as [ev|ev|ids cb|a|opts cb|ids secs cb|cb|n err resp|n]; simpl.
  - intros [= <- <- <-]. rewrite on_run. eexists _, _, _.
    split; [done|apply moves_on].
  - intros [= <- <- <-]. rewrite removeListener_run. eexists _, _, _.
    split; [done|apply moves_removeListener].
  - intros [= <- <- <-]. rewrite ack_run.
    destruct (arrify_ackIds ids) eqn:E; eexists _, _, _; (split; [done|]).
    + apply moves_same; constructor.
    + apply moves_same; by repeat constructor.
  - intros [= <- <- <-]. rewrite skip_run. eexists _, _, _. split; [done|].
    rewrite <- (app_nil_r (resume_effects _)). apply moves_tracker. constructor.
  - intros [= <- <- <-]. eexists _, _, _. split; [done|].
    apply moves_same; by repeat constructor.
  - intros [= <- <- <-]. eexists _, _, _. split; [done|].
    apply moves_same; by repeat constructor.
  - intros [= <- <- <-]. eexists _, _, _. split; [done|].
    apply moves_same; by repeat constructor.
  - destruct (pending w !! n) as [[r h]|]; [|done]. intros [= <- <- <-].
    destruct (handle_moves h err resp s) as (s' & effs & -> & Hm).
    by eexists _, _, _.
  - destruct (timers w !! n); [|done]. intros [= <- <- <-].
    rewrite startPulling__run. eexists _, _, _. split; [done|].
    apply moves_poll.
Qed.

Lemma step_moves i w w' :
  step i w = Some w' →
  ∃ (o : Outcome unit) effs,
    moves (sub w) (sub w') effs ∧ trace w' = trace w ++ effs ++ uncaught o.
Proof.
  unfold step. destruct (dispatch i w) as [[[p t] m]|] eqn:D; [|done].
  intros [= <-].
  destruct (dispatch_moves _ _ _ _ _ (sub w) D)
    as (o & s' & effs & Hm & Hmv).
  exists o, effs. unfold exec_on. rewrite Hm. simpl. by destruct o.
Qed.

Lemma removeAllListeners_frame s :
  let s' := removeAllListeners_state (set_closed true s) in
  inProgressAckIds s' = inProgressAckIds s ∧
  maxInProgress s' = maxInProgress s ∧ paused s' = paused s ∧
  closed s' = true ∧ hooks s' = false.
Proof.
  unfold removeAllListeners_state.
  destruct (removeListeners_frame (listeners (set_closed true s))
              (set_closed true s))
    as (_ & _ & Hp & Hm & Hpa & _ & _ & Hcl & _).
  repeat split; try done. by apply Hcl.
Qed.

Lemma run_app l1 l2 w :
  run (l1 ++ l2) w = match run l1 w with Some w1 => run l2 w1 | None => None end.
Proof.
  revert w. induction l1 as [|i l IH]; intros w; simpl; [done|].
  destruct (step i w); [apply IH|done].
Qed.

Lemma paused_world_reachable : reachable one_at_a_time paused_world.
Proof.
  apply (reachable_run _ [On "message"; Respond 0 None (delivery ["a1"])]
           (boot one_at_a_time)); [apply reachable_boot|].
  vm_compute. reflexivity.
Qed.

Lemma at_capacity_ext s s' :
  inProgressAckIds s' = inProgressAckIds s →
  maxInProgress s' = maxInProgress s →
  at_capacity s' = at_capacity s.
Proof. unfold at_capacity, inProgress. by intros -> ->. Qed.

Lemma moves_frame s s' effs :
  moves s s' effs →
  maxInProgress s' = maxInProgress s ∧
  (paused s' = at_capacity s' ∨
   paused s' = paused s ∧ inProgressAckIds s' = inProgressAckIds s).
Proof.
  destruct 1 as [effs _| |m effs _|ev|ev|effs _].
  - split; [done|by right].
  - split; [done|by right].
  - split; [done|by left].
  - destruct (on_state_frame ev s) as (_ & _ & Hp & Hm & Hpa & _).
    split; [done|by right].
  - destruct (removeListener_state_frame ev s)
      as (_ & _ & Hp & Hm & Hpa & _).
    split; [done|by right].
  - destruct (removeAllListeners_frame s) as (Hp & Hm & Hpa & _).
    split; [done|by right].
Qed.

(** X5. In every reachable world the counter of ['message'] listeners is
    not negative and [closed] holds exactly when it is zero; while the two
    handlers of [listenForEvents_] are registered it is the number of
    ['message'] listeners on the emitter, and once [removeAllListeners] took
    them away it is zero. *)
Theorem listener_count_invariant (options : Options) (w : World) :
  reachable options w →
  0 ≤ messageListeners (sub w) ∧
  (closed (sub w) = true ↔ messageListeners (sub w) = 0) ∧
  (hooks (sub w) = true →
     messageListeners (sub w)
     = Z.of_nat (message_count (listeners (sub w)))) ∧
  (hooks (sub w) = false → messageListeners (sub w) = 0).
Proof.
  intros Hr. apply reachable_Inv in Hr as [[Hc Hn _] _].
  unfold counted in Hn.
  assert (H0 : 0 ≤ messageListeners (sub w))
    by (destruct (hooks (sub w)); lia).
  split; [done|]. split; [|split].
  - rewrite Hc. destruct (0 <? messageListeners (sub w)) eqn:E; simpl.
    + apply Z.ltb_lt in E. split; [done|lia].
    + apply Z.ltb_ge in E. split; [lia|done].
  - intros Hh. by rewrite Hh in Hn.
  - intros Hh. by rewrite Hh in Hn.
Qed.

Lemma listener_count_invariant_witness :
  0 ≤ messageListeners (sub paused_world) ∧
  (closed (sub paused_world) = true ↔ messageListeners (sub paused_world) = 0).
Proof.
  destruct (listener_count_invariant one_at_a_time paused_world
              paused_world_reachable) as (H1 & H2 & _).
  exact (conj H1 H2).
Defined.

(** X6. The configuration read by the constructor never changes: in every
    reachable world [autoAck], [interval] and [maxInProgress] are the values
    the options gave, or [false], 10 and [Infinity] where they gave none. *)
Theorem configuration_is_fixed (options : Options) (w : World) :
  reachable options w →
  autoAck (sub w) = default false (opt_autoAck options) ∧
  interval (sub w) = default 10 (opt_interval options) ∧
  maxInProgress (sub w) = default Infinity (opt_maxInProgress options).
Proof. intros Hr. by apply reachable_Inv in Hr as (_ & -> & -> & ->). Qed.

Lemma configuration_is_fixed_witness :
  autoAck (sub paused_world) = false ∧
  interval (sub paused_world) = 10 ∧
  maxInProgress (sub paused_world) = Num 1.
Proof.
  exact (configuration_is_fixed one_at_a_time paused_world
           paused_world_reachable).
Defined.

Lemma capacity_step i w w' :
  step i w = Some w' →
  (paused (sub w) = true → at_capacity (sub w) = true) ∧
  (∀ n, maxInProgress (sub w) = Num n → 0 < n →
     paused (sub w) = at_capacity (sub w)) →
  (paused (sub w') = true → at_capacity (sub w') = true) ∧
  (∀ n, maxInProgress (sub w') = Num n → 0 < n →
     paused (sub w') = at_capacity (sub w')).
Proof.
  intros Hstep [H1 H2].
  apply step_moves in Hstep as (o & effs & Hmv & _).
  apply moves_frame in Hmv as [Hm [Hp|[Hp Hi]]].
  - split; [by rewrite Hp|]. intros. done.
  - rewrite Hp, (at_capacity_ext _ _ Hi Hm), Hm. by split.
Qed.

(** X7. In every reachable world a paused subscription is at capacity:
    the number of ackIds in progress is at least [maxInProgress]; and for a
    positive [maxInProgress] the converse holds too, so [paused] is exactly
    the comparison [refreshPausedStatus_] makes. *)
Theorem paused_means_at_capacity (options : Options) (w : World) :
  reachable options w →
  (paused (sub w) = true → at_capacity (sub w) = true) ∧
  (∀ n, maxInProgress (sub w) = Num n → 0 < n →
     paused (sub w) = at_capacity (sub w)).
Proof.
  induction 1 as [|i w w' _ IH Hstep].
  - split; [done|]. intros n Hn Hpos.
    unfold at_capacity. rewrite Hn. simpl. symmetry. apply Z.leb_gt. done.
  - by apply (capacity_step i w w').
Qed.

Lemma paused_means_at_capacity_witness :
  paused (sub paused_world) = true ∧ at_capacity (sub paused_world) = true.
Proof.
  split; [reflexivity|].
  exact (proj1 (paused_means_at_capacity one_at_a_time paused_world
                  paused_world_reachable) eq_refl).
Defined.

Lemma stuck_moves n s s' effs :
  moves s s' effs →
  maxInProgress s = Num n → n ≤ 0 → paused s = true →
  maxInProgress s' = Num n ∧ paused s' = true ∧ quiet effs.
Proof.
  intros Hmv Hn Hle Hp.
  destruct Hmv as [effs Hq| |m effs Hq|ev|ev|effs Hq].
  - done.
  - rewrite Hp, orb_true_r. by split; [|split; [|constructor]].
  - assert (Hge : js_ge (inProgress (set_inProgressAckIds m s))
                        (maxInProgress s) = true).
    { rewrite Hn. simpl. apply Z.leb_le. unfold inProgress. lia. }
    split; [done|]. split; [exact Hge|].
    unfold resume_effects, resumes.
    change (maxInProgress (set_inProgressAckIds m s)) with (maxInProgress s).
    rewrite Hge, andb_false_r. done.
  - destruct (on_state_frame ev s) as (_ & _ & _ & Hm & Hpa & _).
    split; [congruence|]. split; [congruence|].
    unfold on_effects, newListener_effects. rewrite Hp, andb_false_r.
    destruct (hooks s); constructor.
  - destruct (removeListener_state_frame ev s)
      as (_ & _ & _ & Hm & Hpa & _).
    split; [congruence|]. split; [congruence|constructor].
  - destruct (removeAllListeners_frame s) as (_ & Hm & Hpa & _).
    split; [congruence|]. split; [congruence|done].
Qed.

Lemma quiet_uncaught (o : Outcome unit) : quiet (uncaught o).
Proof. destruct o; by repeat constructor. Qed.

(** X8. A [maxInProgress] of zero or less does not stop the first pull:
    the constructor leaves [paused] unset, so the first ['message'] listener
    sends a pull request that asks for that many messages.  But once such a
    subscription is paused it stays paused, whatever comes next, and the
    poll loop sends no further pull request. *)
Theorem nonpositive_limit_pauses_for_good (options : Options) (n : Z) :
  opt_maxInProgress options = Some (Num n) →
  n ≤ 0 →
  (∃ w1,
     step (On "message") (boot options) = Some w1 ∧
     paused (sub w1) = false ∧
     pending w1 = [(ReqPull false (Num n), pull_done startPulling_callback)]) ∧
  (∀ inputs w w',
     maxInProgress (sub w) = Num n → paused (sub w) = true →
     run inputs w = Some w' →
     paused (sub w') = true ∧
     poll_requests (trace w') = poll_requests (trace w)).
Proof.
  intros Hopt Hle. split.
  - rewrite step_On. eexists. split; [done|].
    destruct options as [oa oi om]. simpl in Hopt. subst om.
    split; [done|]. done.
  - induction inputs as [|i l IH]; intros w w' Hn Hp; simpl.
    + by intros [= <-].
    + destruct (step i w) as [w1|] eqn:E; [|done]. intros Hrun.
      apply step_moves in E as (o & effs & Hmv & Ht).
      destruct (stuck_moves n _ _ _ Hmv Hn Hle Hp) as (Hn1 & Hp1 & Hq).
      destruct (IH w1 w' Hn1 Hp1 Hrun) as [Hp' Htr].
      split; [done|]. rewrite Htr, Ht, !poll_requests_app.
      rewrite (quiet_poll_requests _ Hq).
      rewrite (quiet_poll_requests _ (quiet_uncaught o)).
      by rewrite !app_nil_r.
Qed.

Lemma nonpositive_limit_pauses_for_good_witness :
  ∃ w1,
    step (On "message")
      (boot {| opt_autoAck := None; opt_interval := None;
               opt_maxInProgress := Some (Num 0) |}) = Some w1 ∧
    paused (sub w1) = false ∧
    pending w1 = [(ReqPull false (Num 0), pull_done startPulling_callback)].
Proof.
  apply (proj1 (nonpositive_limit_pauses_for_good
                  {| opt_autoAck := None; opt_interval := None;
                     opt_maxInProgress := Some (Num 0) |} 0 eq_refl
                  (Z.le_refl 0))).
Defined.

Lemma removeListeners_empty l s :
  listeners s = l →
  listeners (foldl (λ s event, removeListener_state event s) s l) = [].
Proof.
  revert s. induction l as [|x l IH]; intros s Hl; simpl; [done|].
  apply IH. unfold removeListener_state, removeListener_hook_state.
  rewrite Hl, bool_decide_true by by left.
  assert (remove_one x (x :: l) = l) as ->.
  { simpl. by rewrite bool_decide_true. }
  destruct (hooks s); [|done].
  destruct (bool_decide (x = "message")); [|done].
  cbn zeta. by destruct (_ =? 0).
Qed.

Lemma dead_moves s s' effs :
  moves s s' effs →
  hooks s = false → closed s = true →
  hooks s' = false ∧ closed s' = true ∧ quiet effs.
Proof.
  intros Hmv Hh Hc.
  destruct Hmv as [effs Hq| |m effs Hq|ev|ev|effs Hq].
  - done.
  - rewrite Hc. simpl. by split; [|split; [|constructor]].
  - split; [done|]. split; [done|].
    by rewrite resume_effects_closed.
  - unfold on_state, on_effects. rewrite Hh. simpl.
    by split; [|split; [|constructor]].
  - destruct (removeListener_state_frame ev s)
      as (_ & _ & _ & _ & _ & Hh' & _ & Hcl).
    split; [congruence|]. split; [auto|constructor].
  - destruct (removeAllListeners_frame s) as (_ & _ & _ & Hcl & Hh').
    done.
Qed.

(** X9. When the request sent by [delete] succeeds, the subscription is
    closed, every listener is removed and so are the two handlers of
    [listenForEvents_]; from then on, whatever happens, even if a
    ['message'] listener is registered again, it stays closed and the poll
    loop sends no pull request. *)
Theorem deleted_never_polls (w w' w'' : World) (i : nat) (r : Request)
    (c : Callback) (resp : ApiResponse) (inputs : list Input) :
  pending w !! i = Some (r, delete_done c) →
  step (Respond i None resp) w = Some w' →
  run inputs w' = Some w'' →
  listeners (sub w') = [] ∧
  messageListeners (sub w'') = messageListeners (sub w') ∧
  closed (sub w'') = true ∧
  hooks (sub w'') = false ∧
  poll_requests (trace w'') = poll_requests (trace w).
Proof.
  intros Hp Hstep Hrun.
  rewrite (step_Respond _ _ _ _ _ _ Hp) in Hstep.
  rewrite (exec_on_run w _ _ (handle (delete_done c) None resp) _ _ _
             (on_delete_done_run c None resp (sub w))) in Hstep.
  assert (Hsub : sub w' = removeAllListeners_state (set_closed true (sub w)))
    by by injection Hstep as <-.
  assert (Ht1 : poll_requests (trace w') = poll_requests (trace w)).
  { injection Hstep as <-. simpl. rewrite !poll_requests_app, app_nil_r.
    rewrite (quiet_poll_requests _ (quiet_callback c None resp)).
    by rewrite app_nil_r. }
  destruct (removeAllListeners_frame (sub w)) as (_ & _ & _ & Hcl & Hh).
  cbn zeta in Hcl, Hh. rewrite <- Hsub in Hcl, Hh.
  split.
  { rewrite Hsub. unfold removeAllListeners_state. simpl.
    by apply removeListeners_empty. }
  rewrite <- Ht1.
  clear Ht1 Hp Hstep Hsub. revert Hcl Hh Hrun.
  generalize w'. clear w'. intros w1. revert w1.
  induction inputs as [|j l IH]; intros w1 Hcl Hh; simpl.
  - by intros [= <-].
  - destruct (step j w1) as [w2|] eqn:E; [|done]. intros Hrun.
    pose proof E as E'.
    apply step_moves in E as (o & effs & Hmv & Ht).
    destruct (dead_moves _ _ _ Hmv Hh Hcl) as (Hh2 & Hcl2 & Hq).
    destruct (IH w2 Hcl2 Hh2 Hrun) as (Hml & Hc' & Hh' & Htr).
    assert (Hml2 : messageListeners (sub w2) = messageListeners (sub w1)).
    { clear -Hmv Hh.
      destruct Hmv as [effs Hq| |m effs Hq|ev|ev|effs Hq]; try done.
      - unfold on_state. by rewrite Hh.
      - unfold removeListener_state. rewrite Hh. by case_bool_decide.
      - unfold removeAllListeners_state. simpl.
        generalize (listeners (sub w1)). intros l.
        assert (G : ∀ s, hooks s = false →
                  messageListeners
                    (foldl (λ s event, removeListener_state event s) s l)
                  = messageListeners s).
        { induction l as [|x l IHl]; intros s Hs; simpl; [done|].
          rewrite IHl.
          - unfold removeListener_state. rewrite Hs. by case_bool_decide.
          - by destruct (removeListener_state_frame x s)
              as (_ & _ & _ & _ & _ & -> & _). }
        by rewrite G. }
    split; [congruence|]. split; [done|]. split; [done|].
    rewrite Htr, Ht, !poll_requests_app.
    rewrite (quiet_poll_requests _ Hq).
    rewrite (quiet_poll_requests _ (quiet_uncaught o)).
    by rewrite !app_nil_r.
Qed.

Lemma deleted_never_polls_witness :
  ∃ w' w'',
    step (Respond 1 None {| receivedMessages := None |}) deleting_world
      = Some w' ∧
    run [On "message"; Respond 0 None (delivery ["a1"]); Tick 0] w'
      = Some w'' ∧
    closed (sub w'') = true ∧
    poll_requests (trace w'') = poll_requests (trace deleting_world).
Proof.
  set (w1 := default deleting_world
               (step (Respond 1 None {| receivedMessages := None |})
                  deleting_world)).
  assert (H1 : step (Respond 1 None {| receivedMessages := None |})
                 deleting_world = Some w1) by (vm_compute; reflexivity).
  set (w2 := default w1
               (run [On "message"; Respond 0 None (delivery ["a1"]); Tick 0]
                  w1)).
  assert (H2 : run [On "message"; Respond 0 None (delivery ["a1"]); Tick 0] w1
               = Some w2) by (vm_compute; reflexivity).
  exists w1, w2. split; [exact H1|]. split; [exact H2|].
  destruct (deleted_never_polls deleting_world w1 w2 1 ReqDelete noop
              {| receivedMessages := None |}
              [On "message"; Respond 0 None (delivery ["a1"]); Tick 0]
              eq_refl H1 H2) as (_ & _ & Hc & _ & Ht).
  exact (conj Hc Ht).
Defined.




Lemma untrack_size ackIds (m : gmap string bool) :
  (size (untrack ackIds m) ≤ size m ∧
   size m ≤ size (untrack ackIds m) + length ackIds)%nat.
Proof.
  unfold untrack. revert m. induction ackIds as [|a l IH]; intros m; simpl.
  - lia.
  - destruct (IH (delete a m)) as [H1 H2].
    pose proof (map_size_delete a m) as Hd.
    destruct (m !! a); simpl in Hd; lia.
Qed.

Lemma track_size ms (m : gmap string bool) :
  (size m ≤ size (track ms m) ∧ size (track ms m) ≤ size m + length ms)%nat.
Proof.
  unfold track. revert m. induction ms as [|x l IH]; intros m; simpl.
  - lia.
  - destruct (IH (set_property (ackId x) m)) as [H1 H2].
    unfold set_property in *. case_bool_decide; [lia|].
    pose proof (map_size_insert (ackId x) true m) as Hi.
    destruct (m !! ackId x); simpl in Hi; lia.
Qed.

Lemma ackId_formatMessage_ msg : ackId (formatMessage_ msg) = raw_ackId msg.
Proof. unfold formatMessage_. by destruct (message msg). Qed.

Lemma ackIds_received resp :
  map ackId (received resp) = map raw_ackId (arrify (receivedMessages resp)).
Proof.
  unfold received. induction (arrify (receivedMessages resp)) as [|x l IH];
    simpl; [done|]. by rewrite ackId_formatMessage_, IH.
Qed.

(** X12. When an acknowledge request succeeds, exactly its ackIds are
    resolved: afterwards none of them is in progress, every other ackId is
    in progress if and only if it was, and the count has dropped by at most
    the length of the list. *)
Theorem ack_success_resolves (ackIds : list string) (c : AckCallback)
    (resp : ApiResponse) (s : Subscription) :
  ∃ s' effs,
    on_ack_done ackIds c None resp s = (Return tt, s', effs) ∧
    (∀ a, inProgressAckIds s' !! a =
            if bool_decide (a ∈ ackIds) then None
            else inProgressAckIds s !! a) ∧
    inProgress s - Z.of_nat (length ackIds) ≤ inProgress s' ∧
    inProgress s' ≤ inProgress s ∧
    paused s' = at_capacity s'.
Proof.
  rewrite on_ack_done_success. eexists _, _. split; [done|].
  split; [|split; [|split]].
  - intros a. apply untrack_lookup.
  - unfold inProgress. simpl.
    pose proof (untrack_size ackIds (inProgressAckIds s)). lia.
  - unfold inProgress. simpl.
    pose proof (untrack_size ackIds (inProgressAckIds s)). lia.
  - done.
Qed.

(** X13. When a pull succeeds, exactly the received ackIds other than
    ['__proto__'] are added to those in progress, so the count grows by at
    most the number of messages received and [paused] is recomputed from
    the new count; with [autoAck] on and a message received, the
    acknowledge request carries every received ackId, in the order of the
    response. *)
Theorem pull_success_tracks (c : PullCallback) (resp : ApiResponse)
    (s : Subscription) :
  ∃ s' effs,
    on_pull_done c None resp s = (Return tt, s', effs) ∧
    (∀ a, inProgressAckIds s' !! a =
            if bool_decide
                 (a ∈ map raw_ackId (arrify (receivedMessages resp))
                  ∧ a ≠ "__proto__")
            then Some true
            else inProgressAckIds s !! a) ∧
    inProgress s ≤ inProgress s' ∧
    inProgress s'
    ≤ inProgress s + Z.of_nat (length (arrify (receivedMessages resp))) ∧
    paused s' = at_capacity s' ∧
    (autoAck s = true → arrify (receivedMessages resp) ≠ [] →
       acknowledge_requests effs
       = [map raw_ackId (arrify (receivedMessages resp))]).
Proof.
  rewrite on_pull_done_success. cbn zeta. eexists _, _. split; [done|].
  split; [|split; [|split; [|split]]].
  - intros a.
    cbn [refreshed tracked set_paused set_inProgressAckIds inProgressAckIds].
    by rewrite track_lookup, ackIds_received.
  - unfold inProgress. simpl.
    pose proof (track_size (received resp) (inProgressAckIds s)). lia.
  - unfold inProgress. simpl.
    pose proof (track_size (received resp) (inProgressAckIds s)) as H.
    unfold received in H at 3. rewrite length_map in H. lia.
  - done.
  - intros -> Hne.
    assert (Hl : negb (bool_decide (length (received resp) = 0%nat)) = true).
    { unfold received. by destruct (arrify (receivedMessages resp)). }
    rewrite Hl. cbn [andb].
    rewrite acknowledge_requests_app, acknowledge_requests_resume.
    by rewrite <- ackIds_received.
Qed.

Lemma pull_success_tracks_witness :
  ∃ s' effs,
    on_pull_done startPulling_callback None (delivery ["a1"; "a2"])
      (on_state "message" (new_Subscription autoAcking))
    = (Return tt, s', effs) ∧
    inProgress s' ≤ 2 ∧
    acknowledge_requests effs = [["a1"; "a2"]].
Proof.
  destruct (pull_success_tracks startPulling_callback (delivery ["a1"; "a2"])
              (on_state "message" (new_Subscription autoAcking)))
    as (s' & effs & H1 & _ & _ & H2 & _ & H3).
  exists s', effs. split; [exact H1|]. split; [exact H2|].
  apply H3; [reflexivity|discriminate].
Defined.

Lemma decorateMessage__run m s :
  decorateMessage_ m s = (Return m, tracked [m] s, []).
Proof. done. Qed.

(** X14. Tracking is idempotent and [skip] undoes it: decorating a
    message twice leaves the subscription as decorating it once, the message
    handed back being the one given; and decorating a message whose ackId
    was not in progress, then skipping it, restores the set of ackIds in
    progress. *)
Theorem track_then_skip (m : Message) (s : Subscription) :
  (_ <- decorateMessage_ m ;; decorateMessage_ m) s = decorateMessage_ m s ∧
  (inProgressAckIds s !! ackId m = None →
   ∃ s' effs,
     (_ <- decorateMessage_ m ;; skip (ackId m)) s = (Return tt, s', effs) ∧
     inProgressAckIds s' = inProgressAckIds s).
Proof.
  split.
  - unfold bind. rewrite !decorateMessage__run. simpl.
    unfold tracked, track, set_property. simpl.
    case_bool_decide; [done|]. by rewrite insert_insert_eq.
  - intros Hm. unfold bind. rewrite decorateMessage__run, skip_run.
    eexists _, _. split; [done|]. simpl. unfold set_property.
    case_bool_decide; [by apply delete_id|by apply delete_insert_id].
Qed.

Lemma track_then_skip_witness :
  ∃ s' effs,
    (_ <- decorateMessage_
            {| ackId := "a1"; id := None; data := None; attributes := None |} ;;
     skip "a1") (new_Subscription defaults) = (Return tt, s', effs) ∧
    inProgressAckIds s' = inProgressAckIds (new_Subscription defaults).
Proof.
  exact (proj2 (track_then_skip
                  {| ackId := "a1"; id := None; data := None;
                     attributes := None |}
                  (new_Subscription defaults)) eq_refl).
Defined.

Lemma reopen_round options w :
  sub w = new_Subscription options →
  ∃ w',
    run [On "message"; RemoveListener "message"] w = Some w' ∧
    sub w' = new_Subscription options ∧
    pending w' =
      pending w ++ [(ReqPull false (poll_maxMessages (new_Subscription options)),
                     pull_done startPulling_callback)] ∧
    timers w' = timers w.
Proof.
  intros Hs. cbn [run]. rewrite step_On, step_RemoveListener.
  eexists. split; [done|]. cbn [sub pending timers]. rewrite Hs.
  split; [done|]. split; [|by rewrite !app_nil_r].
  by rewrite app_nil_r.
Qed.

Lemma reopen_rounds_run options n w :
  sub w = new_Subscription options →
  ∃ w',
    run (reopen_rounds n) w = Some w' ∧
    sub w' = new_Subscription options ∧
    pending w' =
      pending w
        ++ replicate n
             (ReqPull false (poll_maxMessages (new_Subscription options)),
              pull_done startPulling_callback) ∧
    timers w' = timers w.
Proof.
  revert w. induction n as [|n IH]; intros w Hs.
  - exists w. by rewrite app_nil_r.
  - destruct (reopen_round options w Hs) as (w1 & H1 & Hs1 & Hp1 & Ht1).
    destruct (IH w1 Hs1) as (w2 & H2 & Hs2 & Hp2 & Ht2).
    exists w2. unfold reopen_rounds. cbn [replicate concat].
    rewrite run_app, H1. split; [exact H2|]. split; [done|].
    split; [|congruence].
    rewrite Hp2, Hp1, <- app_assoc. done.
Qed.

(** X15. Nothing bounds the pull requests the poll loop has in flight:
    [startPulling_] does not look for one that is outstanding, so each time
    the last ['message'] listener is removed and one is registered again
    another pull request goes out.  For every [n] a world is reachable in
    which [n] pull requests of the poll loop are outstanding at once. *)
Theorem poll_requests_in_flight_unbounded (options : Options) (n : nat) :
  ∃ w,
    run (reopen_rounds n) (boot options) = Some w ∧
    reachable options w ∧
    pending w =
      replicate n
        (ReqPull false (poll_maxMessages (new_Subscription options)),
         pull_done startPulling_callback).
Proof.
  destruct (reopen_rounds_run options n (boot options) eq_refl)
    as (w & Hrun & _ & Hp & _).
  exists w. split; [done|]. split; [|done].
  eapply reachable_run; [apply reachable_boot|exact Hrun].
Qed.

(** ** The poll loop stays alive *)

Lemma elem_of_delete_other {A} (l : list A) i x y :
  l !! i = Some y → x ∈ l → x ≠ y → x ∈ delete i l.
Proof.
  revert i. induction l as [|z l IH]; intros i Hi Hx Hne; [done|].
  destruct i as [|i]; simpl in *.
  - injection Hi as ->. apply elem_of_cons in Hx as [?|?]; done.
  - apply elem_of_cons in Hx as [->|Hx]; [by left|].
    right. by apply (IH i).
Qed.

Lemma alive_grows w w' p t :
  pending w' = pending w ++ p → timers w' = timers w ++ t →
  alive w → alive w'.
Proof.
  intros Hp Ht [(r & h & Hin & Hc)|Hne].
  - left. exists r, h. split; [|done]. rewrite Hp. apply elem_of_app. by left.
  - right. rewrite Ht. by destruct (timers w).
Qed.

Lemma alive_poll w p s :
  pending w = p ++ requests_of [poll_request s] → alive w.
Proof.
  intros Hp. left.
  exists (ReqPull false (poll_maxMessages s)), (pull_done startPulling_callback).
  split; [|done]. rewrite Hp. apply elem_of_app. right. simpl. left.
Qed.

Lemma timeouts_of_app e1 e2 :
  timeouts_of (e1 ++ e2) = timeouts_of e1 ++ timeouts_of e2.
Proof. apply omap_app. Qed.

Lemma alive_poll_callback w t pre err ms resp s :
  unheard err s = None →
  timers w =
    t ++ timeouts_of
           (pre ++ pull_callback_effects startPulling_callback err ms resp s) →
  alive w.
Proof.
  intros Hu Ht. right. rewrite Ht. simpl. rewrite Hu, !timeouts_of_app. simpl.
  intros H. apply app_eq_nil in H as [_ H].
  apply app_eq_nil in H as [_ H]. apply app_eq_nil in H as [_ H].
  by apply app_eq_nil in H as [_ H].
Qed.

Lemma refreshed_resumes m s :
  Inv s → closed s = false → paused s = true →
  paused (refreshed (set_inProgressAckIds m s)) = false →
  resume_effects (set_inProgressAckIds m s)
  = [poll_request (refreshed (set_inProgressAckIds m s))].
Proof.
  intros [Hc _ _] Hcl Hp Hp'.
  unfold resume_effects, resumes.
  change (paused (set_inProgressAckIds m s)) with (paused s).
  change (closed (set_inProgressAckIds m s)) with (closed s).
  change (messageListeners (set_inProgressAckIds m s))
    with (messageListeners s).
  unfold refreshed in Hp'. simpl in Hp'.
  rewrite Hp, Hcl. simpl in *. rewrite Hp'. simpl.
  rewrite Hcl in Hc. symmetry in Hc. apply negb_false_iff in Hc.
  by rewrite Hc.
Qed.

Lemma alive_tracker w w' m rest p :
  Inv (sub w) →
  sub w' = refreshed (set_inProgressAckIds m (sub w)) →
  pending w' = p ++ requests_of (resume_effects (set_inProgressAckIds m (sub w))
                                   ++ rest) →
  (closed (sub w) = false → paused (sub w) = false → alive w') →
  closed (sub w') = false → paused (sub w') = false → alive w'.
Proof.
  intros HI Hs Hp Hold Hc Hpa. rewrite Hs in Hc, Hpa.
  change (closed (refreshed (set_inProgressAckIds m (sub w))))
    with (closed (sub w)) in Hc.
  destruct (paused (sub w)) eqn:E; [|by apply Hold].
  rewrite (refreshed_resumes m (sub w) HI Hc E Hpa) in Hp.
  left.
  exists (ReqPull false
            (poll_maxMessages (refreshed (set_inProgressAckIds m (sub w))))),
    (pull_done startPulling_callback).
  split; [|done]. rewrite Hp, requests_of_app, !elem_of_app.
  right. left. simpl. left.
Qed.

Lemma alive_delete w w' n r h p' t' :
  pending w !! n = Some (r, h) → is_chain_handler h = false →
  pending w' = delete n (pending w) ++ p' → timers w' = timers w ++ t' →
  alive w → alive w'.
Proof.
  intros Hl Hh Hp Ht [(r0 & h0 & Hin & Hc)|Hne].
  - left. exists r0, h0. split; [|done]. rewrite Hp. apply elem_of_app. left.
    apply (elem_of_delete_other _ _ _ _ Hl Hin). congruence.
  - right. rewrite Ht. by destruct (timers w).
Qed.

Lemma alive_autoAck w p pre ackIds ms resp :
  pending w =
    p ++ requests_of
           (pre ++ [Requested (ReqAcknowledge ackIds)
                      (ack_done ackIds
                         (autoAck_callback startPulling_callback ms resp))]) →
  alive w.
Proof.
  intros Hp. left.
  exists (ReqAcknowledge ackIds),
    (ack_done ackIds (autoAck_callback startPulling_callback ms resp)).
  split; [|done]. rewrite Hp, requests_of_app, !elem_of_app.
  right. right. simpl. left.
Qed.

Lemma heard_unheard w n r h e resp :
  pending w !! n = Some (r, h) → is_chain_handler h = true →
  heard (Respond n (Some e) resp) w = true →
  unheard (Some e) (sub w) = None.
Proof.
  intros Hl Hc. unfold heard, unheard. rewrite Hl, Hc. simpl. by intros ->.
Qed.

Lemma alive_step i w w' :
  Inv (sub w) → step i w = Some w' → heard i w = true →
  (closed (sub w) = false → paused (sub w) = false → alive w) →
  closed (sub w') = false → paused (sub w') = false → alive w'.
Proof.
  intros HI Hstep Hheard Hold Hc Hp.
  apply step_inv in Hstep
    as (p & t & m & o & effs & Hd & Hm & _ & Hpe & Hti & _).
  destruct i as [ev|ev|ids cb|a|opts cb|ids secs cb|cb|n err resp|n];
    simpl in Hd.
  - injection Hd as <- <- <-. rewrite on_run in Hm.
    injection Hm as _ Hs <-. rewrite <- Hs in Hc, Hp.
    destruct (on_state_frame ev (sub w)) as (_ & _ & _ & _ & Hpa & Hcl).
    rewrite Hpa in Hp.
    unfold on_effects, newListener_effects in Hpe.
    unfold on_state, newListener_state in Hc.
    destruct (hooks (sub w)).
    + destruct (bool_decide (ev = "message")); simpl in *.
      * destruct (closed (sub w)) eqn:E; simpl in *.
        -- rewrite Hp in Hpe. exact (alive_poll w' _ (sub w) Hpe).
        -- eapply alive_grows; [done..|by apply Hold].
      * eapply alive_grows; [done..|by apply Hold].
    + eapply alive_grows; [done..|by apply Hold].
  - injection Hd as <- <- <-. rewrite removeListener_run in Hm.
    injection Hm as _ Hs <-. rewrite <- Hs in Hc, Hp.
    destruct (removeListener_state_frame ev (sub w))
      as (_ & _ & _ & _ & Hpa & _ & _ & Hcl).
    rewrite Hpa in Hp.
    eapply alive_grows; [done..|]. apply Hold; [|done].
    destruct (closed (sub w)); [|done]. rewrite Hcl in Hc; done.
  - injection Hd as <- <- <-. rewrite ack_run in Hm.
    destruct (arrify_ackIds ids); injection Hm as _ Hs <-;
      rewrite <- Hs in Hc, Hp;
      (eapply alive_grows; [done..|by apply Hold]).
  - injection Hd as <- <- <-. rewrite skip_run in Hm.
    injection Hm as _ Hs <-.
    eapply (alive_tracker w w' _ []); [done|done| |  |done|done].
    + by rewrite app_nil_r.
    + intros. eapply alive_grows; [done..|by apply Hold].
  - injection Hd as <- <- <-. injection Hm as _ Hs <-.
    rewrite <- Hs in Hc, Hp. eapply alive_grows; [done..|by apply Hold].
  - injection Hd as <- <- <-. injection Hm as _ Hs <-.
    rewrite <- Hs in Hc, Hp. eapply alive_grows; [done..|by apply Hold].
  - injection Hd as <- <- <-. injection Hm as _ Hs <-.
    rewrite <- Hs in Hc, Hp. eapply alive_grows; [done..|by apply Hold].
  - destruct (pending w !! n) as [[r h]|] eqn:Hl; [|done].
    injection Hd as <- <- <-.
    destruct h as [ackIds c|c|c|c]; cbn [handle] in Hm.
    + destruct err as [e|].
      * rewrite on_ack_done_error in Hm. injection Hm as _ Hs <-.
        rewrite <- Hs in Hc, Hp.
        destruct c as [c|[|k] ms r0].
        -- eapply alive_delete; [done|done|done|done|by apply Hold].
        -- exact (alive_poll_callback w' _ [] (Some e) (Some ms) r0 (sub w)
                    (heard_unheard _ _ _ _ _ _ Hl eq_refl Hheard) Hti).
        -- eapply alive_delete; [done|done|done|done|by apply Hold].
      * rewrite on_ack_done_success in Hm. injection Hm as _ Hs <-.
        destruct c as [c|[|k] ms r0].
        -- eapply alive_tracker; [done|done|done| |done|done].
           intros. eapply alive_delete; [done|done|done|done|by apply Hold].
        -- exact (alive_poll_callback w' _ _ None (Some ms) r0 _ eq_refl Hti).
        -- eapply alive_tracker; [done|done|done| |done|done].
           intros. eapply alive_delete; [done|done|done|done|by apply Hold].
    + destruct err as [e|].
      * rewrite on_pull_done_error in Hm. injection Hm as _ Hs <-.
        rewrite <- Hs in Hc, Hp. destruct c as [|k].
        -- exact (alive_poll_callback w' _ [] (Some e) None resp (sub w)
                    (heard_unheard _ _ _ _ _ _ Hl eq_refl Hheard) Hti).
        -- eapply alive_delete; [done|done|done|done|by apply Hold].
      * rewrite on_pull_done_success in Hm. cbn zeta in Hm.
        injection Hm as _ Hs <-. destruct c as [|k].
        -- destruct (_ && _).
           ++ exact (alive_autoAck w' _ _ _ _ _ Hpe).
           ++ exact (alive_poll_callback w' _ _ None _ resp _ eq_refl Hti).
        -- eapply alive_tracker; [done|done|done| |done|done].
           intros. eapply alive_delete; [done|done|done|done|by apply Hold].
    + rewrite call_run in Hm. injection Hm as _ Hs <-.
      rewrite <- Hs in Hc, Hp.
      eapply alive_delete; [done|done|done|done|by apply Hold].
    + rewrite on_delete_done_run in Hm. injection Hm as _ Hs <-.
      destruct err as [e|].
      * rewrite <- Hs in Hc, Hp.
        eapply alive_delete; [done|done|done|done|by apply Hold].
      * destruct (removeAllListeners_frame (sub w)) as (_ & _ & _ & Hcl & _).
        cbn zeta in Hcl. rewrite Hs in Hcl. congruence.
  - destruct (timers w !! n); [|done]. injection Hd as <- <- <-.
    rewrite startPulling__run in Hm. injection Hm as _ Hs <-.
    rewrite <- Hs in Hc, Hp. rewrite Hc, Hp in Hpe.
    exact (alive_poll w' _ (sub w) Hpe).
Qed.

Lemma alive_run inputs w w' :
  Inv (sub w) →
  (closed (sub w) = false → paused (sub w) = false → alive w) →
  run inputs w = Some w' → all_heard inputs w = true →
  closed (sub w') = false → paused (sub w') = false → alive w'.
Proof.
  revert w. induction inputs as [|i l IH]; intros w HI Hold; simpl.
  - by intros [= <-].
  - destruct (step i w) as [w1|] eqn:E; [|done].
    intros Hrun [Hi Hl]%andb_prop. apply (IH w1); [| |done|done].
    + apply step_inv in E as (p & t & m & o & effs & _ & _ & Hok & _).
      by apply (ok_inv _ _ _ _ Hok).
    + by apply (alive_step i w w1).
Qed.

(** X16. As long as no failure is answered to a request of the poll loop
    while no ['error'] listener is registered, an open subscription that is
    not paused is never left without its poll loop: after any such sequence
    of inputs, if [closed] and [paused] are both unset, a pull request of
    the loop is in flight, or the acknowledge request [pull] sent for it
    is, or a timer that will call [startPulling_] is armed. *)
Theorem open_subscription_keeps_polling (options : Options)
    (inputs : list Input) (w : World) :
  run inputs (boot options) = Some w →
  all_heard inputs (boot options) = true →
  closed (sub w) = false → paused (sub w) = false → alive w.
Proof.
  intros Hrun Hheard.
  by apply (alive_run inputs (boot options) w); [apply Inv_new| | |].
Qed.

Lemma open_subscription_keeps_polling_witness :
  ∃ w, run [On "error"; On "message";
            Respond 0 (Some "ETIMEDOUT") {| receivedMessages := None |}]
         (boot defaults) = Some w ∧
       closed (sub w) = false ∧ paused (sub w) = false ∧
       pending w = [] ∧ timers w = [10] ∧ alive w.
Proof.
  set (w := default (boot defaults)
              (run [On "error"; On "message";
                    Respond 0 (Some "ETIMEDOUT")
                      {| receivedMessages := None |}]
                 (boot defaults))).
  assert (Hrun : run [On "error"; On "message";
                      Respond 0 (Some "ETIMEDOUT")
                        {| receivedMessages := None |}]
                   (boot defaults) = Some w) by (vm_compute; reflexivity).
  exists w. split; [exact Hrun|].
  split; [reflexivity|]. split; [reflexivity|].
  split; [reflexivity|]. split; [reflexivity|].
  apply (open_subscription_keeps_polling defaults _ w Hrun);
    [vm_compute|..]; reflexivity.
Defined.

Lemma attributes_received resp :
  map attributes (received resp)
  = map (λ r, message r ≫= raw_attributes) (arrify (receivedMessages resp)).
Proof.
  unfold received. induction (arrify (receivedMessages resp)) as [|x l IH];
    simpl; [done|]. rewrite IH. f_equal.
  unfold formatMessage_. by destruct (message x).
Qed.

(** X17. With [autoAck] off, a successful pull of the poll loop emits one
    ['message'] event per received message, in the order of the response
    and each with the response attached, emits no ['error'] event, and then
    arms the timer once with the poll interval; the messages carry the
    received ackIds and attributes unchanged. *)
Theorem pull_success_emits_in_order (resp : ApiResponse) (s : Subscription) :
  autoAck s = false →
  ∃ s' before,
    on_pull_done startPulling_callback None resp s =
      (Return tt, s',
       before ++ map (λ m, Emit (message_event m resp)) (received resp)
         ++ [SetTimeout (interval s)]) ∧
    (before = [] ∨ before = [poll_request s']) ∧
    length (received resp) = length (arrify (receivedMessages resp)) ∧
    map ackId (received resp)
    = map raw_ackId (arrify (receivedMessages resp)) ∧
    map attributes (received resp)
    = map (λ r, message r ≫= raw_attributes) (arrify (receivedMessages resp)).
Proof.
  intros Ha. rewrite on_pull_done_success, Ha. cbn zeta. cbn [andb].
  eexists _, _. split; [reflexivity|].
  split; [|split; [|split]].
  - unfold resume_effects. destruct (_ && _); [by right|by left].
  - unfold received. by rewrite length_map.
  - apply ackIds_received.
  - apply attributes_received.
Qed.

Lemma pull_success_emits_in_order_witness :
  ∃ s' before,
    on_pull_done startPulling_callback None (delivery ["a1"; "a2"])
      (on_state "message" (new_Subscription defaults)) =
      (Return tt, s',
       before
         ++ map (λ m, Emit (message_event m (delivery ["a1"; "a2"])))
              (received (delivery ["a1"; "a2"]))
         ++ [SetTimeout 10]) ∧
    map ackId (received (delivery ["a1"; "a2"])) = ["a1"; "a2"].
Proof.
  destruct (pull_success_emits_in_order (delivery ["a1"; "a2"])
              (on_state "message" (new_Subscription defaults)) eq_refl)
    as (s' & before & H1 & _ & _ & H2 & _).
  exists s', before. split; [exact H1|exact H2].
Defined.

(** X18. Run any sequence of track and resolve operations on a new
    subscription, none of which tracks the ackId ['__proto__']: none
    throws; the count of ackIds in progress is not negative and is the
    number of distinct ackIds tracked and not yet resolved, which are just
    the keys of [inProgressAckIds].  And a [skip], or the success of an
    acknowledge request, for ackIds that are not tracked returns normally
    and leaves the set as it was. *)
Theorem tracker_counts_outstanding :
  (∀ options ops,
     Forall ordinary ops →
     ∃ s' effs,
       forEach run_op ops (new_Subscription options) = (Return tt, s', effs) ∧
       0 ≤ inProgress s' ∧
       inProgress s' = Z.of_nat (length (outstanding ops)) ∧
       NoDup (outstanding ops) ∧
       ∀ a, a ∈ outstanding ops ↔ a ∈ dom (inProgressAckIds s')) ∧
  (∀ s a, inProgressAckIds s !! a = None →
     ∃ s' effs, skip a s = (Return tt, s', effs) ∧
                inProgressAckIds s' = inProgressAckIds s) ∧
  (∀ s ackIds c resp,
     (∀ a, a ∈ ackIds → inProgressAckIds s !! a = None) →
     ∃ s' effs, on_ack_done ackIds c None resp s = (Return tt, s', effs) ∧
                inProgressAckIds s' = inProgressAckIds s).
Proof.
  split; [|split].
  - intros options ops Hops.
    destruct (forEach_run_op_run ops (new_Subscription options))
      as (s' & effs & Hrun & Hm).
    exists s', effs. split; [done|].
    assert (Hrep : represents (outstanding ops) (inProgressAckIds s')).
    { rewrite Hm. apply represents_foldl; [done|]. split; [constructor|].
      intros a. simpl. rewrite dom_empty_L.
      split; intros H; [by apply elem_of_nil in H|by apply elem_of_empty in H]. }
    unfold inProgress. rewrite (represents_size _ _ Hrep).
    split; [lia|]. split; [done|]. exact Hrep.
  - intros s a Ha. rewrite skip_run. eexists _, _. split; [done|].
    simpl. by apply delete_id.
  - intros s ackIds c resp Ha. rewrite on_ack_done_success.
    eexists _, _. split; [done|]. simpl. by apply untrack_absent.
Qed.

Lemma tracker_counts_outstanding_witness :
  ∃ s' effs,
    forEach run_op
      [track_op {| ackId := "a1"; id := None; data := None; attributes := None |};
       track_op {| ackId := "a2"; id := None; data := None; attributes := None |};
       track_op {| ackId := "a1"; id := None; data := None; attributes := None |};
       skip_op "a3"; skip_op "a2"; skip_op "a2";
       ack_op ["a7"] (plain noop) {| receivedMessages := None |}]
      (new_Subscription defaults) = (Return tt, s', effs) ∧
    inProgress s' = 1 ∧
    skip "a9" s' = (Return tt, s', []).
Proof.
  destruct (proj1 tracker_counts_outstanding defaults
      [track_op {| ackId := "a1"; id := None; data := None; attributes := None |};
       track_op {| ackId := "a2"; id := None; data := None; attributes := None |};
       track_op {| ackId := "a1"; id := None; data := None; attributes := None |};
       skip_op "a3"; skip_op "a2"; skip_op "a2";
       ack_op ["a7"] (plain noop) {| receivedMessages := None |}])
    as (s' & effs & Hrun & _ & Hcount & _).
  - repeat constructor; discriminate.
  - exists s', effs. split; [exact Hrun|]. split; [exact Hcount|].
    vm_compute in Hrun. injection Hrun as <- <-. vm_compute. reflexivity.
Defined.
